(** * ai_validation_system: the persistence layer and the verifiable-inference core

    A shallow embedding of [database/docker-entrypoint-initdb.d/init.sql]
    (the [users] and [requests] tables, the foreign key [fk_user], the
    trigger function [update_user_success_rate]) and of the settings client
    of [frontend/src/services/api.js].  The middleware that samples
    requests, drives the proof pipeline and books the outcomes is not part
    of the sources; those components are modelled from the specification
    and are marked as such.

    Conventions.
    - An SQL column that may hold NULL is an [option]; [None] is NULL.
    - INTEGER columns are integers in [Z].  PostgreSQL rejects a statement
      whose result leaves the 32-bit range instead of wrapping, so there is
      no wrap-around to write out.  The rejection is [Sql.int4]; the
      ledger's increments are checked against it in [Ledger.record_int4],
      the other statements are read for values inside the range.
    - The FLOAT column [success_rate] is a rational in [Q], kept in lowest
      terms, so that the trigger's quotient is exact.
    - A VARCHAR value is the string of bytes of its UTF-8 text; its
      length is counted in characters.
    - A statement that PostgreSQL rejects evaluates to [None] and leaves the
      database as it was. *)

From Stdlib Require Import ZArith QArith Lia List Bool Ascii String.
From stdpp Require Import base option gmap strings pretty.

Local Open Scope Z_scope.

(** ** SQL values *)

Module Sql.

(** [a > b] in SQL's three-valued logic: NULL when an operand is NULL. *)
Definition gt (a b : option Z) : option bool :=
  match a, b with
  | Some x, Some y => Some (x >? y)
  | _, _ => None
  end.

(** PL/pgSQL's [IF c THEN]: the branch is taken only when [c] is TRUE;
    FALSE and NULL both skip it. *)
Definition is_true (c : option bool) : bool :=
  match c with
  | Some true => true
  | _ => false
  end.

(** [a::FLOAT]. *)
Definition to_float (a : option Z) : option Q :=
  match a with
  | Some x => Some (inject_Z x)
  | None => None
  end.

(** [a / b] on FLOAT and INTEGER operands, used with a nonzero divisor. *)
Definition fdiv (a : option Q) (b : option Z) : option Q :=
  match a, b with
  | Some x, Some y => Some (x / inject_Z y)%Q
  | _, _ => None
  end.

(** [a * k] for a literal [k]; the product is stored in lowest terms. *)
Definition fmul (a : option Q) (k : Z) : option Q :=
  match a with
  | Some x => Some (Qred (x * inject_Z k))
  | None => None
  end.

(** A string is the UTF-8 text the client sends: a character starts at
    every byte that is not a continuation byte [10xxxxxx]. *)
Definition continuation (a : ascii) : bool :=
  match a with
  | Ascii _ _ _ _ _ _ b6 b7 => b7 && negb b6
  end.

(** [char_length(s)]: the number of characters of [s]. *)
Fixpoint char_length (s : string) : nat :=
  match s with
  | EmptyString => 0%nat
  | String a s' =>
      ((if continuation a then 0 else 1) + char_length s')%nat
  end.

(** The first [n] characters of [s], and what follows them. *)
Fixpoint clip (n : nat) (s : string) : string :=
  match s with
  | EmptyString => EmptyString
  | String a s' =>
      if continuation a then String a (clip n s')
      else match n with
           | O => EmptyString
           | S n' => String a (clip n' s')
           end
  end.

Fixpoint excess (n : nat) (s : string) : string :=
  match s with
  | EmptyString => EmptyString
  | String a s' =>
      if continuation a then excess n s'
      else match n with
           | O => s
           | S n' => excess n' s'
           end
  end.

Fixpoint blank (s : string) : bool :=
  match s with
  | EmptyString => true
  | String a s' => Ascii.eqb a " "%char && blank s'
  end.

(** [VARCHAR(255)] counts characters, not bytes.  A value of more than
    255 characters is rejected, unless the characters in excess are all
    spaces. *)
Definition varchar255 (s : string) : bool := blank (excess 255 s).

(** The value stored for an accepted one: its first 255 characters, the
    spaces in excess being cut. *)
Definition cut255 (s : string) : string := clip 255 s.

(** The value a column receives from an INSERT: the value written in the
    statement, or the column's DEFAULT when the statement omits it. *)
Definition or_default {A} (dflt : option A) (given : option (option A))
  : option A :=
  match given with
  | Some v => v
  | None => dflt
  end.

(** The value a column receives from an UPDATE: the SET expression
    evaluated on the old row, or the old value when the column is not in
    the SET list. *)
Definition or_old {R A} (old : R) (cur : A) (set : option (R -> A)) : A :=
  match set with
  | Some e => e old
  | None => cur
  end.

(** The value a VARCHAR(255) column receives from an UPDATE. *)
Definition or_old_cut {R} (old : R) (cur : string)
    (set : option (R -> string)) : string :=
  match set with
  | Some e => cut255 (e old)
  | None => cur
  end.

(** The length check of an UPDATE applies to an assigned column only. *)
Definition assigned_fits {R} (old : R) (set : option (R -> string)) : bool :=
  match set with
  | Some e => varchar255 (e old)
  | None => true
  end.

(** INTEGER is a signed 32-bit integer.  An expression whose value
    leaves the range raises [numeric_value_out_of_range] (22003), and
    the statement is rejected. *)
Definition int4 (z : Z) : bool :=
  (-2147483648 <=? z) && (z <=? 2147483647).

(** The range check on the INTEGER expression of an assigned column;
    NULL passes. *)
Definition assigned_int4 {R} (old : R) (set : option (R -> option Z))
  : bool :=
  match set with
  | Some e => match e old with Some z => int4 z | None => true end
  | None => true
  end.

End Sql.

(** ** Table [users] *)

Module Users.

(** One row of [users], without its primary key [id] (the key of the
    table map below). *)
Record row := {
  username : string;                (* VARCHAR(255) UNIQUE NOT NULL *)
  email : string;                   (* VARCHAR(255) UNIQUE NOT NULL *)
  password_hash : string;           (* VARCHAR(255) NOT NULL *)
  proof_threshold : option Z;       (* INTEGER DEFAULT 100 *)
  total_proofs : option Z;          (* INTEGER DEFAULT 0 *)
  successful_proofs : option Z;     (* INTEGER DEFAULT 0 *)
  success_rate : option Q           (* FLOAT DEFAULT 0.0 *)
}.

Definition with_success_rate (r : row) (v : option Q) : row :=
  {| username := username r; email := email r;
     password_hash := password_hash r;
     proof_threshold := proof_threshold r;
     total_proofs := total_proofs r;
     successful_proofs := successful_proofs r;
     success_rate := v |}.

(** [update_user_success_rate()], the trigger function, on the row [NEW]:
<<
    IF NEW.total_proofs > 0 THEN
        NEW.success_rate := (NEW.successful_proofs::FLOAT / NEW.total_proofs) * 100;
    END IF;
    RETURN NEW;
>> *)
Definition update_user_success_rate (NEW : row) : row :=
  if Sql.is_true (Sql.gt (total_proofs NEW) (Some 0)) then
    with_success_rate NEW
      (Sql.fmul
         (Sql.fdiv (Sql.to_float (successful_proofs NEW)) (total_proofs NEW))
         100)
  else NEW.

(** [INSERT INTO users (...) VALUES (...)].  A column is [None] when the
    statement omits it; for the nullable columns [Some None] writes an
    explicit NULL. *)
Record insert := {
  i_id : option Z;                  (* omitted: nextval of the SERIAL *)
  i_username : option string;
  i_email : option string;
  i_password_hash : option string;
  i_proof_threshold : option (option Z);
  i_total_proofs : option (option Z);
  i_successful_proofs : option (option Z);
  i_success_rate : option (option Q)
}.

(** The row proposed by an INSERT, before the trigger runs: NOT NULL and
    VARCHAR(255) are checked, omitted columns take their DEFAULT. *)
Definition proposed (s : insert) : option row :=
  match i_username s, i_email s, i_password_hash s with
  | Some u, Some e, Some p =>
      if Sql.varchar255 u && Sql.varchar255 e && Sql.varchar255 p then
        Some {| username := Sql.cut255 u; email := Sql.cut255 e;
                password_hash := Sql.cut255 p;
                proof_threshold :=
                  Sql.or_default (Some 100) (i_proof_threshold s);
                total_proofs := Sql.or_default (Some 0) (i_total_proofs s);
                successful_proofs :=
                  Sql.or_default (Some 0) (i_successful_proofs s);
                success_rate :=
                  Sql.or_default (Some 0%Q) (i_success_rate s) |}
      else None
  | _, _, _ => None
  end.

(** [trigger_update_success_rate] is BEFORE INSERT: it runs on every
    inserted row. *)
Definition inserted (s : insert) : option row :=
  update_user_success_rate <$> proposed s.

(** [UPDATE users SET ... WHERE id = ...].  A column is [None] when it is
    not in the SET list; a SET expression may read the old row. *)
Record update := {
  u_username : option (row -> string);
  u_email : option (row -> string);
  u_password_hash : option (row -> string);
  u_proof_threshold : option (row -> option Z);
  u_total_proofs : option (row -> option Z);
  u_successful_proofs : option (row -> option Z);
  u_success_rate : option (row -> option Q)
}.

(** The row [NEW] of an UPDATE applied to [OLD], before the trigger. *)
Definition assigned (s : update) (OLD : row) : row :=
  {| username := Sql.or_old_cut OLD (username OLD) (u_username s);
     email := Sql.or_old_cut OLD (email OLD) (u_email s);
     password_hash :=
       Sql.or_old_cut OLD (password_hash OLD) (u_password_hash s);
     proof_threshold :=
       Sql.or_old OLD (proof_threshold OLD) (u_proof_threshold s);
     total_proofs := Sql.or_old OLD (total_proofs OLD) (u_total_proofs s);
     successful_proofs :=
       Sql.or_old OLD (successful_proofs OLD) (u_successful_proofs s);
     success_rate := Sql.or_old OLD (success_rate OLD) (u_success_rate s) |}.

(** [BEFORE ... UPDATE OF total_proofs, successful_proofs]: the trigger
    fires exactly when one of the two columns is in the SET list. *)
Definition fires (s : update) : bool :=
  match u_total_proofs s, u_successful_proofs s with
  | None, None => false
  | _, _ => true
  end.

(** VARCHAR(255) is checked on the columns the statement assigns. *)
Definition fits (s : update) (OLD : row) : bool :=
  Sql.assigned_fits OLD (u_username s)
  && Sql.assigned_fits OLD (u_email s)
  && Sql.assigned_fits OLD (u_password_hash s).

Definition updated (s : update) (OLD : row) : option row :=
  let NEW := assigned s OLD in
  if fits s OLD
  then Some (if fires s then update_user_success_rate NEW else NEW)
  else None.

(** Do the INTEGER expressions of the SET list stay inside the 32-bit
    range on the row [OLD]? *)
Definition in_range (s : update) (OLD : row) : bool :=
  Sql.assigned_int4 OLD (u_proof_threshold s)
  && Sql.assigned_int4 OLD (u_total_proofs s)
  && Sql.assigned_int4 OLD (u_successful_proofs s).

(** The empty SET list, to build statements from. *)
Definition set_nothing : update :=
  {| u_username := None; u_email := None; u_password_hash := None;
     u_proof_threshold := None; u_total_proofs := None;
     u_successful_proofs := None; u_success_rate := None |}.

End Users.

(** ** Table [requests] *)

Module Requests.

(** One row of [requests], without its primary key [id]. *)
Record row := {
  user_id : Z;                      (* INTEGER NOT NULL, fk_user *)
  model_type : string;              (* VARCHAR(255) NOT NULL *)
  image_path : string;              (* VARCHAR(255) NOT NULL *)
  result : option string;           (* JSONB, kept as its text *)
  created_at : option Z;            (* TIMESTAMP DEFAULT CURRENT_TIMESTAMP *)
  proof_generated : option bool;    (* BOOLEAN DEFAULT FALSE *)
  proof_verified : option bool      (* BOOLEAN *)
}.

(** [INSERT INTO requests (...) VALUES (...)]; [None] is an omitted
    column. *)
Record insert := {
  i_id : option Z;
  i_user_id : option Z;
  i_model_type : option string;
  i_image_path : option string;
  i_result : option (option string);
  i_created_at : option (option Z);
  i_proof_generated : option (option bool);
  i_proof_verified : option (option bool)
}.

(** The inserted row: NOT NULL and VARCHAR(255) are checked, omitted
    columns take their DEFAULT ([proof_verified] and [result] have none,
    which is NULL); [now] is CURRENT_TIMESTAMP.  The foreign key is
    checked against the [users] table by the database below. *)
Definition inserted (now : Z) (s : insert) : option row :=
  match i_user_id s, i_model_type s, i_image_path s with
  | Some u, Some m, Some p =>
      if Sql.varchar255 m && Sql.varchar255 p then
        Some {| user_id := u; model_type := Sql.cut255 m;
                image_path := Sql.cut255 p;
                result := Sql.or_default None (i_result s);
                created_at := Sql.or_default (Some now) (i_created_at s);
                proof_generated :=
                  Sql.or_default (Some false) (i_proof_generated s);
                proof_verified :=
                  Sql.or_default None (i_proof_verified s) |}
      else None
  | _, _, _ => None
  end.

(** [UPDATE requests SET ... WHERE id = ...]. *)
Record update := {
  u_user_id : option (row -> Z);
  u_model_type : option (row -> string);
  u_image_path : option (row -> string);
  u_result : option (row -> option string);
  u_created_at : option (row -> option Z);
  u_proof_generated : option (row -> option bool);
  u_proof_verified : option (row -> option bool)
}.

Definition assigned (s : update) (OLD : row) : row :=
  {| user_id := Sql.or_old OLD (user_id OLD) (u_user_id s);
     model_type := Sql.or_old_cut OLD (model_type OLD) (u_model_type s);
     image_path := Sql.or_old_cut OLD (image_path OLD) (u_image_path s);
     result := Sql.or_old OLD (result OLD) (u_result s);
     created_at := Sql.or_old OLD (created_at OLD) (u_created_at s);
     proof_generated :=
       Sql.or_old OLD (proof_generated OLD) (u_proof_generated s);
     proof_verified :=
       Sql.or_old OLD (proof_verified OLD) (u_proof_verified s) |}.

Definition fits (s : update) (OLD : row) : bool :=
  Sql.assigned_fits OLD (u_model_type s)
  && Sql.assigned_fits OLD (u_image_path s).

Definition updated (s : update) (OLD : row) : option row :=
  if fits s OLD then Some (assigned s OLD) else None.

Definition set_nothing : update :=
  {| u_user_id := None; u_model_type := None; u_image_path := None;
     u_result := None; u_created_at := None; u_proof_generated := None;
     u_proof_verified := None |}.

End Requests.

(** ** The database: both tables, their keys and the foreign key *)

Module Db.

Record t := {
  users : gmap Z Users.row;         (* keyed by users.id *)
  requests : gmap Z Requests.row;   (* keyed by requests.id *)
  users_id_seq : Z;                 (* last value of the SERIAL of users *)
  requests_id_seq : Z
}.

(** The state after [init.sql]: both tables created empty. *)
Definition init : t :=
  {| users := ∅; requests := ∅; users_id_seq := 0; requests_id_seq := 0 |}.

Definition with_users (d : t) (us : gmap Z Users.row) : t :=
  {| users := us; requests := requests d;
     users_id_seq := users_id_seq d;
     requests_id_seq := requests_id_seq d |}.

Definition with_requests (d : t) (rs : gmap Z Requests.row) : t :=
  {| users := users d; requests := rs;
     users_id_seq := users_id_seq d;
     requests_id_seq := requests_id_seq d |}.

(** UNIQUE(username), UNIQUE(email): does a row other than [self] hold
    the value already? *)
Definition username_taken (us : gmap Z Users.row) (self : option Z)
    (u : string) : bool :=
  bool_decide
    (map_Exists (λ k r, Some k ≠ self ∧ Users.username r = u) us).

Definition email_taken (us : gmap Z Users.row) (self : option Z)
    (e : string) : bool :=
  bool_decide
    (map_Exists (λ k r, Some k ≠ self ∧ Users.email r = e) us).

(** Is the user [uid] referenced by a request? *)
Definition referenced (rs : gmap Z Requests.row) (uid : Z) : bool :=
  bool_decide (map_Exists (λ _ r, Requests.user_id r = uid) rs).

Definition is_Some_b {A} (o : option A) : bool :=
  match o with Some _ => true | None => false end.

(** [fk_user] on an UPDATE of a request: the referenced user is looked
    up when the statement assigns [user_id]. *)
Definition guard_fk {A} (set : option A) (us : gmap Z Users.row)
    (uid : Z) : option unit :=
  match set with
  | None => Some tt
  | Some _ => match us !! uid with Some _ => Some tt | None => None end
  end.

(** The constraint [fk_user]: the [user_id] of every request is the key
    of a row of [users]. *)
Definition fk_user (d : t) : Prop :=
  ∀ rid r, requests d !! rid = Some r ->
           is_Some (users d !! Requests.user_id r).

(** The statements that change the two tables.  A WHERE clause selects
    one row by its primary key; a statement over several rows acts as
    the single-row statement on each. *)
Inductive stmt :=
| InsertUser (s : Users.insert)
| UpdateUser (uid : Z) (new_id : option Z) (s : Users.update)
| DeleteUser (uid : Z)
| InsertRequest (now : Z) (s : Requests.insert)
| UpdateRequest (rid : Z) (new_id : option Z) (s : Requests.update)
| DeleteRequest (rid : Z).

(** INSERT of one user.  The key is the [id] of the statement, or the
    next value of the sequence.  The sequence moves with an accepted
    INSERT; the value a rejected one uses up is accounted for in [step]
    below. *)
Definition insert_user (s : Users.insert) (d : t) : option t :=
  r ← Users.inserted s;
  let '(k, seq) :=
    match Users.i_id s with
    | Some k => (k, users_id_seq d)
    | None => (users_id_seq d + 1, users_id_seq d + 1)
    end in
  match users d !! k with
  | Some _ => None                                  (* PRIMARY KEY *)
  | None =>
      if username_taken (users d) None (Users.username r)
         || email_taken (users d) None (Users.email r)
      then None                                     (* UNIQUE *)
      else Some {| users := <[k := r]> (users d);
                   requests := requests d;
                   users_id_seq := seq;
                   requests_id_seq := requests_id_seq d |}
  end.

(** UPDATE of one user; UNIQUE is checked for the columns the statement
    assigns.  Without ON UPDATE in [fk_user] the action is NO ACTION:
    moving the key of a user that requests still reference is
    rejected. *)
Definition update_user (uid : Z) (new_id : option Z) (s : Users.update)
    (d : t) : option t :=
  match users d !! uid with
  | None => Some d                                  (* no row matches *)
  | Some OLD =>
      r ← Users.updated s OLD;
      let k := default uid new_id in
      if is_Some_b (Users.u_username s)
           && username_taken (users d) (Some uid) (Users.username r)
         || is_Some_b (Users.u_email s)
            && email_taken (users d) (Some uid) (Users.email r)
      then None                                     (* UNIQUE *)
      else if bool_decide (k = uid)
      then Some (with_users d (<[uid := r]> (users d)))
      else match users d !! k with
           | Some _ => None                         (* PRIMARY KEY *)
           | None =>
               if referenced (requests d) uid then None   (* fk_user *)
               else Some (with_users d
                            (<[k := r]> (delete uid (users d))))
           end
  end.

(** DELETE of one user; ON DELETE CASCADE removes, in the same
    statement, every request whose [user_id] is the deleted key. *)
Definition delete_user (uid : Z) (d : t) : option t :=
  match users d !! uid with
  | None => Some d
  | Some _ =>
      Some {| users := delete uid (users d);
              requests :=
                filter (λ kr, Requests.user_id kr.2 ≠ uid) (requests d);
              users_id_seq := users_id_seq d;
              requests_id_seq := requests_id_seq d |}
  end.

(** INSERT of one request, with [fk_user] checked on its [user_id]; the
    sequence as for [insert_user]. *)
Definition insert_request (now : Z) (s : Requests.insert) (d : t)
    : option t :=
  r ← Requests.inserted now s;
  let '(k, seq) :=
    match Requests.i_id s with
    | Some k => (k, requests_id_seq d)
    | None => (requests_id_seq d + 1, requests_id_seq d + 1)
    end in
  match requests d !! k with
  | Some _ => None                                  (* PRIMARY KEY *)
  | None =>
      match users d !! Requests.user_id r with
      | None => None                                (* fk_user *)
      | Some _ =>
          Some {| users := users d;
                  requests := <[k := r]> (requests d);
                  users_id_seq := users_id_seq d;
                  requests_id_seq := seq |}
      end
  end.

Definition update_request (rid : Z) (new_id : option Z)
    (s : Requests.update) (d : t) : option t :=
  match requests d !! rid with
  | None => Some d
  | Some OLD =>
      r ← Requests.updated s OLD;
      let k := default rid new_id in
      match guard_fk (Requests.u_user_id s) (users d) (Requests.user_id r)
      with
      | None => None                                (* fk_user *)
      | Some _ =>
          if bool_decide (k = rid)
          then Some (with_requests d (<[rid := r]> (requests d)))
          else match requests d !! k with
               | Some _ => None                     (* PRIMARY KEY *)
               | None =>
                   Some (with_requests d
                           (<[k := r]> (delete rid (requests d))))
               end
      end
  end.

Definition delete_request (rid : Z) (d : t) : option t :=
  Some (with_requests d (delete rid (requests d))).

Definition exec (c : stmt) (d : t) : option t :=
  match c with
  | InsertUser s => insert_user s d
  | UpdateUser uid k s => update_user uid k s d
  | DeleteUser uid => delete_user uid d
  | InsertRequest now s => insert_request now s d
  | UpdateRequest rid k s => update_request rid k s d
  | DeleteRequest rid => delete_request rid d
  end.

(** A script: the statements in order, stopping at the first one that is
    rejected.  A session that carries on after a rejected statement is
    [play] below. *)
Fixpoint run (cs : list stmt) (d : t) : option t :=
  match cs with
  | [] => Some d
  | c :: cs' => d' ← exec c d; run cs' d'
  end.

(** [nextval] of the SERIAL from which an INSERT that leaves [id] out
    draws its key. *)
Definition nextval (c : stmt) (d : t) : t :=
  match c with
  | InsertUser s =>
      match Users.i_id s with
      | Some _ => d
      | None => {| users := users d; requests := requests d;
                   users_id_seq := users_id_seq d + 1;
                   requests_id_seq := requests_id_seq d |}
      end
  | InsertRequest _ s =>
      match Requests.i_id s with
      | Some _ => d
      | None => {| users := users d; requests := requests d;
                   users_id_seq := users_id_seq d;
                   requests_id_seq := requests_id_seq d + 1 |}
      end
  | _ => d
  end.

(** One statement of a session that carries on after an error.  An
    accepted statement has its effect.  A rejected one leaves both tables
    as they were, but [nextval] is not rolled back: if the INSERT had
    drawn its key by the time it was rejected (PRIMARY KEY, UNIQUE, NOT
    NULL and [fk_user] are checked on the finished row), that value of
    the sequence is used up.  [drawn] says whether it had. *)
Definition step (c : stmt) (drawn : bool) (d : t) : t :=
  match exec c d with
  | Some d' => d'
  | None => if drawn then nextval c d else d
  end.

(** A session: every statement in order, the rejected ones included. *)
Fixpoint play (cs : list (stmt * bool)) (d : t) : t :=
  match cs with
  | [] => d
  | (c, drawn) :: cs' => play cs' (step c drawn d)
  end.

End Db.

(** ** The settings client of the frontend *)

Module Api.

(** The value held by the settings form: [useState(5)], then
    [parseInt(e.target.value)], which is an integer or NaN.  [Num z] is
    the double of value [z]; see [safe] below for the integers on which
    this reading is exact. *)
Inductive js_number :=
| Num (z : Z)
| NaN.

(** [${proofThreshold}] in a template literal. *)
Definition template (n : js_number) : string :=
  match n with
  | Num z => pretty z
  | NaN => "NaN"
  end.

Definition MAX_SAFE_INTEGER : Z := 9007199254740991.

(** The numbers on which [template] is the code's conversion: NaN, and
    the integers up to [Number.MAX_SAFE_INTEGER] in absolute value.  A
    double holds each of these exactly and JavaScript prints it as its
    decimal digits; [Num 0] stands for both zeros, which print alike.
    Beyond them JavaScript prints the shortest digits that read back as
    the same double, in exponent form from 1e21 on, and [template] does
    not follow it. *)
Definition safe (n : js_number) : bool :=
  match n with
  | Num z => Z.abs z <=? MAX_SAFE_INTEGER
  | NaN => true
  end.

Record request := {
  method : string;
  url : string;
  authorization : option string
}.

Record response := {
  status : Z;
  data : string
}.

Definition API_URL : string := "http://localhost:8000/api".

(** The request interceptor: the bearer token of [localStorage], when
    there is one. *)
Definition interceptor (token : option string) : option string :=
  (λ t, "Bearer " +:+ t) <$> token.

(** [updateProofSettings]:
<<
    const response = await axiosInstance.post(`/settings?proof_threshold=${proofThreshold}`);
    return response.data;
>>
    [post] is the server behind axios, which throws the response (left)
    when its status is not 2xx. *)
Definition updateProofSettings (token : option string)
    (post : request -> response) (proofThreshold : js_number)
    : response + string :=
  let response :=
    post {| method := "POST";
            url := API_URL +:+ "/settings?proof_threshold="
                     +:+ template proofThreshold;
            authorization := interceptor token |} in
  if (200 <=? status response) && (status response <? 300)
  then inr (data response)
  else inl response.

End Api.

(** ** Outcome Ledger *)

Module Ledger.

(** The outcome of one request (spec, section 3). *)
Inductive ProofOutcome :=
| not_attempted
| succeeded
| failed.

Definition attempted (o : ProofOutcome) : bool :=
  match o with
  | not_attempted => false
  | _ => true
  end.

Definition is_succeeded (o : ProofOutcome) : bool :=
  match o with
  | succeeded => true
  | _ => false
  end.

(** [c + 1] on a nullable INTEGER, as a sum in [Z]; whether the sum is
    still an INTEGER is checked by [Users.in_range]. *)
Definition incr (c : option Z) : option Z := Z.succ <$> c.

(** The SET list that books an attempted outcome:
    [total_proofs = total_proofs + 1], and
    [successful_proofs = successful_proofs + 1] when it succeeded. *)
Definition booking (o : ProofOutcome) : Users.update :=
  {| Users.u_username := None; Users.u_email := None;
     Users.u_password_hash := None; Users.u_proof_threshold := None;
     Users.u_total_proofs := Some (λ r, incr (Users.total_proofs r));
     Users.u_successful_proofs :=
       if is_succeeded o
       then Some (λ r, incr (Users.successful_proofs r))
       else None;
     Users.u_success_rate := None |}.

(** Modelled from the spec: [record(userId, outcome)] of section 4.7; the
    middleware function that books an outcome is not among the sources.
    A not-attempted outcome changes nothing.  An attempted outcome is one
    statement, [UPDATE users SET ... WHERE id = userId] with the SET list
    above, so that the trigger of [init.sql] recomputes [success_rate]
    within it. *)
Definition record (userId : Z) (o : ProofOutcome) (d : Db.t)
    : option Db.t :=
  if attempted o then Db.update_user userId None (booking o) d
  else Some d.

(** Modelled from the spec: [record] on the INTEGER columns of
    [init.sql].  [total_proofs + 1] and [successful_proofs + 1] are
    32-bit additions: when one of them leaves the range PostgreSQL raises
    22003, the UPDATE is rejected and the row stays as it was. *)
Definition record_int4 (userId : Z) (o : ProofOutcome) (d : Db.t)
    : option Db.t :=
  match Db.users d !! userId with
  | Some r =>
      if attempted o && negb (Users.in_range (booking o) r) then None
      else record userId o d
  | None => record userId o d
  end.



(** What the stats surface returns; [ProofStats.jsx] reads these five
    fields. *)
Record stats := {
  s_total_proofs : option Z;
  s_successful_proofs : option Z;
  s_failed_proofs : option Z;
  s_threshold : option Z;
  s_success_percentage : option Q
}.



(** [successful / total * 100] as the trigger computes it. *)
Definition rate_of (s t : Z) : Q :=
  Qred (inject_Z s / inject_Z t * inject_Z 100).

(** The ledger invariant of spec sections 3 and 8 on one row: counts
    with [0 <= successful <= total], and the rate derived from them. *)
Definition consistent (r : Users.row) : Prop :=
  ∃ s t,
    Users.successful_proofs r = Some s ∧ Users.total_proofs r = Some t ∧
    0 <= s <= t ∧
    Users.success_rate r = Some (if t =? 0 then 0%Q else rate_of s t).

(** A row as account creation leaves it: the counters at their
    DEFAULT. *)
Definition fresh (r : Users.row) : Prop :=
  Users.total_proofs r = Some 0 ∧ Users.successful_proofs r = Some 0 ∧
  Users.success_rate r = Some 0%Q.

End Ledger.

(** ** Sampling Gate *)

Module Gate.

(** The SamplingCounters, by user id: a user's eligible requests since the
    account was created.  A new account has no entry yet and counts 0. *)
Definition counter_of (userId : Z) (cs : gmap Z Z) : Z :=
  default 0 (cs !! userId).

(** The user's sampling denominator: the column [proof_threshold] of the
    user's row. *)
Definition threshold_of (userId : Z) (d : Db.t) : option Z :=
  r ← Db.users d !! userId; Users.proof_threshold r.

(** Modelled from the spec: [shouldProve(userId)] of section 4.5, which
    advances that user's SamplingCounter and fires on every Nth eligible
    request, N the user's [proof_threshold]; the middleware that samples
    requests is not among the sources.  A user without a threshold is
    not sampled. *)
Definition shouldProve (userId : Z) (d : Db.t) (cs : gmap Z Z)
  : bool * gmap Z Z :=
  let c := counter_of userId cs + 1 in
  (match threshold_of userId d with
   | Some N => c mod N =? 0
   | None => false
   end,
   <[userId := c]> cs).

(** The eligible requests of any users, in arrival order: each decision
    with the user it is for, and the counters afterwards. *)
Fixpoint serve (arrivals : list Z) (d : Db.t) (cs : gmap Z Z)
  : list (Z * bool) * gmap Z Z :=
  match arrivals with
  | [] => ([], cs)
  | u :: rest =>
      let '(b, cs') := shouldProve u d cs in
      let '(ds, cs'') := serve rest d cs' in
      ((u, b) :: ds, cs'')
  end.

(** The decisions taken for one user, oldest first. *)
Fixpoint decisions_of (userId : Z) (ds : list (Z * bool)) : list bool :=
  match ds with
  | [] => []
  | (u, b) :: ds' =>
      if bool_decide (u = userId) then b :: decisions_of userId ds'
      else decisions_of userId ds'
  end.

(** How many of the arrivals are requests of the user. *)
Fixpoint eligible (userId : Z) (arrivals : list Z) : nat :=
  match arrivals with
  | [] => O
  | u :: rest =>
      if bool_decide (u = userId) then S (eligible userId rest)
      else eligible userId rest
  end.

(** How many of the decisions fire. *)
Fixpoint fired (bs : list bool) : Z :=
  match bs with
  | [] => 0
  | b :: bs' => (if b then 1 else 0) + fired bs'
  end.

(** The policy in the spec's words, to compare the gate with: of the [M]
    requests that follow request number [c], those whose number is a
    multiple of [N] are proved. *)
Fixpoint every_Nth (N c : Z) (M : nat) : list bool :=
  match M with
  | O => []
  | S M' => ((c + 1) mod N =? 0) :: every_Nth N (c + 1) M'
  end.

End Gate.

(** ** Threshold update *)

Module Settings.


Definition assign_threshold (n : Z) : Users.update :=
  {| Users.u_username := None; Users.u_email := None;
     Users.u_password_hash := None;
     Users.u_proof_threshold := Some (λ _, Some n);
     Users.u_total_proofs := None; Users.u_successful_proofs := None;
     Users.u_success_rate := None |}.


End Settings.

(** ** Pipeline Orchestrator *)

Module Pipeline.

(** Why a sampled request ended without a verified proof (spec,
    section 7); [VerificationMismatch] is a verifier that answered
    false. *)
Inductive fault :=
| CompilationError
| WitnessError
| ProverError
| VerifierError
| VerificationMismatch.

(** The proving stages run in an error monad over [fault]. *)
Definition stage_bind {A B} (r : fault + A) (k : A -> fault + B)
  : fault + B :=
  match r with
  | inl e => inl e
  | inr a => k a
  end.

Notation "x <~ r ;; k" := (stage_bind r (λ x, k))
  (at level 100, r at next level, right associativity).

(** A stage that fails is tagged with its error kind. *)
Definition stage {A} (e : fault) (r : option A) : fault + A :=
  match r with
  | Some a => inr a
  | None => inl e
  end.

Record CircuitArtifact {Circuit PK VK : Type} := {
  circuit : Circuit;
  proving_key : PK;
  verification_key : VK
}.
Arguments CircuitArtifact : clear implicits.

Section Orchestrator.

(** The collaborators, with the contracts of spec section 4; a stage
    answers [None] where its contract says it fails. *)
Context {Model Image Output InferenceError : Type}.
Context {Circuit PK VK Witness Proof PublicIO : Type}.
Context `{EqDecision Model}.

Variable infer : Model -> Image -> InferenceError + Output.
Variable compile : Model -> option (CircuitArtifact Circuit PK VK).
Variable build : Circuit -> Image -> Output -> option Witness.
Variable prove : Circuit -> Witness -> PK -> option (Proof * PublicIO).
Variable verify : Proof -> PublicIO -> VK -> option bool.

(** Modelled from the spec: the compiler's cache of section 4.1; per
    model it is absent, or the sticky result of the one compilation of
    that model. *)
Definition cache : Type :=
  Model -> option (option (CircuitArtifact Circuit PK VK)).

Definition ensure_compiled (m : Model) (c : cache)
  : option (CircuitArtifact Circuit PK VK) * cache :=
  match c m with
  | Some a => (a, c)
  | None =>
      let a := compile m in
      (a, λ m', if decide (m' = m) then Some a else c m')
  end.

(** Modelled from the spec: the proving path of section 4.6 for a
    selected request, compile -> build witness -> prove -> verify, which
    stops at the first stage that fails. *)
Definition attempt (a : option (CircuitArtifact Circuit PK VK))
    (x : Image) (y : Output) : fault + unit :=
  art <~ stage CompilationError a ;;
  w <~ stage WitnessError (build (circuit art) x y) ;;
  pio <~ stage ProverError (prove (circuit art) w (proving_key art)) ;;
  ok <~ stage VerifierError
          (verify pio.1 pio.2 (verification_key art)) ;;
  if ok : bool then inr tt else inl VerificationMismatch.

(** Some stage of the pipeline fails on [(x, y)]: the compilation, the
    witness, the prover, or the verifier, which throws or answers
    false. *)
Definition pipeline_fails (a : option (CircuitArtifact Circuit PK VK))
    (x : Image) (y : Output) : Prop :=
  a = None ∨
  ∃ art, a = Some art ∧
    (build (circuit art) x y = None ∨
     ∃ w, build (circuit art) x y = Some w ∧
       (prove (circuit art) w (proving_key art) = None ∨
        ∃ p io, prove (circuit art) w (proving_key art) = Some (p, io) ∧
          (verify p io (verification_key art) = None ∨
           verify p io (verification_key art) = Some false))).

Definition outcome_of (r : fault + unit) : Ledger.ProofOutcome :=
  match r with
  | inr _ => Ledger.succeeded
  | inl _ => Ledger.failed
  end.

Definition flag_of (r : fault + unit) : option fault :=
  match r with
  | inr _ => None
  | inl e => Some e
  end.

(** What the caller receives: the classification with the proof status
    as a secondary field, or the failure of the inference. *)
Inductive response :=
| Delivered (y : Output) (o : Ledger.ProofOutcome) (why : option fault)
| RequestFailed (e : InferenceError).

(** What a request runs against: the SamplingCounters, the compiler's
    cache and the database. *)
Record world := {
  counters : gmap Z Z;
  compiled : cache;
  db : Db.t
}.

(** Modelled from the spec: the per-request state machine of section
    4.6, Inferred -> GateEvaluated -> Skipped | ProofAttempted ->
    Finalized; the request handler of the middleware is not among the
    sources. *)
Definition handle (userId : Z) (m : Model) (x : Image) (w : world)
  : response * world :=
  match infer m x with
  | inl e => (RequestFailed e, w)
  | inr y =>
      let '(selected, cs) := Gate.shouldProve userId (db w) (counters w) in
      if selected then
        let '(a, c) := ensure_compiled m (compiled w) in
        let r := attempt a x y in
        (Delivered y (outcome_of r) (flag_of r),
         {| counters := cs; compiled := c;
            db := default (db w)
                    (Ledger.record userId (outcome_of r) (db w)) |})
      else
        (Delivered y Ledger.not_attempted None,
         {| counters := cs; compiled := compiled w;
            db := default (db w)
                    (Ledger.record userId Ledger.not_attempted (db w)) |})
  end.

End Orchestrator.

Arguments cache : clear implicits.
Arguments world : clear implicits.
Arguments response : clear implicits.

End Pipeline.

(** ** The frontend: storage, API client, hooks and submit handlers

    A component is its state; a handler is a function from the state and
    the browser's [localStorage] to the state it leaves and the effects it
    had.  The server behind axios is a function from the call to what
    comes back. *)

Module Web.

(** The JavaScript values the code tests or stores: [undefined], [null],
    a string, or any other value, of which the code uses only ToString
    and ToBoolean. *)
Inductive js :=
| Undefined
| Null
| Str (s : string)
| Other (text : string) (truth : bool).

(** ToBoolean: [!!v], [if (v)], the left operand of [||]. *)
Definition truthy (v : js) : bool :=
  match v with
  | Undefined | Null => false
  | Str s => negb (bool_decide (s = ""))
  | Other _ b => b
  end.

(** ToString, which [localStorage.setItem] applies to its value. *)
Definition to_string (v : js) : string :=
  match v with
  | Undefined => "undefined"
  | Null => "null"
  | Str s => s
  | Other s _ => s
  end.

(** [a || b]. *)
Definition or_else (a b : js) : js := if truthy a then a else b.

(** [localStorage]. *)
Definition getItem (k : string) (ls : gmap string string) : js :=
  match ls !! k with
  | Some s => Str s
  | None => Null
  end.

Definition setItem (k : string) (v : js) (ls : gmap string string)
  : gmap string string :=
  <[k := to_string v]> ls.

Definition removeItem (k : string) (ls : gmap string string)
  : gmap string string :=
  delete k ls.

(** The token the request interceptor finds:
    [const token = localStorage.getItem('token'); if (token) ...]. *)
Definition token_of (ls : gmap string string) : option string :=
  match getItem "token" ls with
  | Str s => if truthy (Str s) then Some s else None
  | _ => None
  end.

(** What a request carries besides its line and headers. *)
Inductive part :=
| Text (s : string)
| File (name : string).

Inductive payload :=
| NoBody
| Form (fields : list (string * string))        (* URLSearchParams *)
| Json (fields : list (string * string))        (* an object literal *)
| Multipart (fields : list (string * part)).    (* FormData *)

Record call := {
  request : Api.request;
  content_type : option string;
  body : payload
}.

(** What comes back: nothing, or a response with its status, the
    [detail] field of its data and the data as the caller reads it. *)
Record reply {D : Type} := {
  status : Z;
  detail : js;
  data : D
}.
Arguments reply : clear implicits.

Inductive outcome (D : Type) :=
| NoResponse
| Reply (r : reply D).
Arguments NoResponse {D}.
Arguments Reply {D} r.

(** The error a call throws: [error.response], when there is one. *)
Definition thrown (D : Type) : Type := option (reply D).

(** [axiosInstance.post/get]: resolves with [response.data] on a 2xx
    status and throws otherwise. *)
Definition axios {D} (srv : call -> outcome D) (c : call)
  : thrown D + D :=
  match srv c with
  | NoResponse => inl None
  | Reply r =>
      if (200 <=? status r) && (status r <? 300) then inr (data r)
      else inl (Some r)
  end.

(** The request line of [axiosInstance], through the interceptor. *)
Definition through (ls : gmap string string) (method path : string)
  : Api.request :=
  {| Api.method := method; Api.url := Api.API_URL +:+ path;
     Api.authorization := Api.interceptor (token_of ls) |}.

Record credentials := { username : string; password : string }.

Record userData := {
  u_username : string;
  u_email : string;
  u_password : string
}.

(** [loginUser]. *)
Definition loginUser_call (ls : gmap string string) (c : credentials)
  : call :=
  {| request := through ls "POST" "/auth/login";
     content_type := Some "application/x-www-form-urlencoded";
     body := Form [("username", username c); ("password", password c)] |}.

(** [registerUser]; its catch logs to the console and throws the error
    on. *)
Definition registerUser_call (ls : gmap string string) (u : userData)
  : call :=
  {| request := through ls "POST" "/auth/register";
     content_type := Some "application/json";
     body := Json [("username", u_username u); ("email", u_email u);
                   ("password", u_password u)] |}.

(** [processImage]. *)
Definition processImage_call (ls : gmap string string)
    (image modelType : string) : call :=
  {| request := through ls "POST" "/process";
     content_type := Some "multipart/form-data";
     body := Multipart [("image", File image);
                        ("model_type", Text modelType)] |}.

(** [updateProofSettings], as a call. *)
Definition updateProofSettings_call (ls : gmap string string)
    (proofThreshold : Api.js_number) : call :=
  {| request :=
       through ls "POST"
         ("/settings?proof_threshold=" +:+ Api.template proofThreshold);
     content_type := None;
     body := NoBody |}.

(** [getProofStats]. *)
Definition getProofStats_call (ls : gmap string string) : call :=
  {| request := through ls "GET" "/stats";
     content_type := None;
     body := NoBody |}.

(** What a handler did besides changing its component's state. *)
Inductive toast :=
| ToastError (message : js)
| ToastSuccess (message : string).

Record effects := {
  storage : gmap string string;
  toasts : list toast;
  navigations : list string;
  sent : list call;
  console_errors : nat
}.

(** [toast.error(error.response?.data?.detail || fallback)]. *)
Definition failure_toast {D} (e : thrown D) (fallback : string) : toast :=
  ToastError
    (or_else (match e with Some r => detail r | None => Undefined end)
       (Str fallback)).

(** [useAuth]: the state of one use of the hook, and its mount effect. *)
Record auth := {
  isAuthenticated : bool;
  isLoading : bool
}.

Definition useAuth_initial : auth :=
  {| isAuthenticated := false; isLoading := true |}.

Definition useAuth_effect (ls : gmap string string) (a : auth) : auth :=
  {| isAuthenticated := truthy (getItem "token" ls); isLoading := false |}.

(** [PrivateRoute]. *)
Inductive view :=
| LoadingScreen
| Navigate (to : string)
| Children.

Definition PrivateRoute (a : auth) : view :=
  if isLoading a then LoadingScreen
  else if negb (isAuthenticated a) then Navigate "/login"
  else Children.

(** What a mounted [PrivateRoute] renders: with the initial state, then
    with the state the effect sets. *)
Definition PrivateRoute_renders (ls : gmap string string) : list view :=
  [PrivateRoute useAuth_initial;
   PrivateRoute (useAuth_effect ls useAuth_initial)].

(** [Login]: the data of a login response is an object, of which
    [access_token] is read, or [null]. *)
Inductive login_data :=
| NoObject
| Object (access_token : js).

Record login_state := {
  l_credentials : credentials;
  l_isLoading : bool;
  l_auth : auth
}.

(** [Login.handleSubmit]. *)
Definition Login_handleSubmit (srv : call -> outcome login_data)
    (st : login_state) (ls : gmap string string) : login_state * effects :=
  let c := loginUser_call ls (l_credentials st) in
  let idle a :=
    {| l_credentials := l_credentials st; l_isLoading := false;
       l_auth := a |} in
  match axios srv c with
  | inr (Object tok) =>
      (idle {| isAuthenticated := true;
               isLoading := isLoading (l_auth st) |},
       {| storage := setItem "token" tok ls; toasts := [];
          navigations := ["/dashboard"]; sent := [c];
          console_errors := 0 |})
  | inr NoObject =>
      (* reading [access_token] of null throws; the catch sees an error
         without a response *)
      (idle (l_auth st),
       {| storage := ls;
          toasts := [failure_toast (None : thrown login_data) "Login failed"];
          navigations := []; sent := [c]; console_errors := 0 |})
  | inl e =>
      (idle (l_auth st),
       {| storage := ls; toasts := [failure_toast e "Login failed"];
          navigations := []; sent := [c]; console_errors := 0 |})
  end.

(** [Dashboard.handleLogout]. *)
Definition Dashboard_handleLogout (ls : gmap string string) : effects :=
  {| storage := removeItem "token" ls; toasts := [];
     navigations := ["/login"]; sent := []; console_errors := 0 |}.

Record register_state := {
  r_userData : userData;
  r_isLoading : bool
}.

(** [Register.handleSubmit]. *)
Definition Register_handleSubmit (srv : call -> outcome unit)
    (st : register_state) (ls : gmap string string)
  : register_state * effects :=
  let c := registerUser_call ls (r_userData st) in
  let idle := {| r_userData := r_userData st; r_isLoading := false |} in
  match axios srv c with
  | inr _ =>
      (idle,
       {| storage := ls;
          toasts := [ToastSuccess "Registration successful! Please login."];
          navigations := ["/login"]; sent := [c]; console_errors := 0 |})
  | inl e =>
      (idle,
       {| storage := ls; toasts := [failure_toast e "Registration failed"];
          navigations := []; sent := [c]; console_errors := 1 |})
  end.

Record settings_state := {
  proofThreshold : Api.js_number;
  s_isLoading : bool
}.

(** [ProofSettings]: [useState(5)]. *)
Definition ProofSettings_initial : settings_state :=
  {| proofThreshold := Api.Num 5; s_isLoading := false |}.

(** [ProofSettings.handleSubmit]. *)
Definition ProofSettings_handleSubmit (srv : call -> outcome unit)
    (st : settings_state) (ls : gmap string string)
  : settings_state * effects :=
  let c := updateProofSettings_call ls (proofThreshold st) in
  let idle :=
    {| proofThreshold := proofThreshold st; s_isLoading := false |} in
  match axios srv c with
  | inr _ =>
      (idle,
       {| storage := ls;
          toasts := [ToastSuccess "Settings updated successfully"];
          navigations := []; sent := [c]; console_errors := 0 |})
  | inl e =>
      (idle,
       {| storage := ls;
          toasts := [failure_toast e "Failed to update settings"];
          navigations := []; sent := [c]; console_errors := 0 |})
  end.

Record upload_state {D : Type} := {
  file : option string;
  modelType : string;
  loading : bool;
  result : option D
}.
Arguments upload_state : clear implicits.

(** [ImageUpload]: [useState(null)], [useState('resnet18')],
    [useState(false)], [useState(null)]. *)
Definition ImageUpload_initial {D} : upload_state D :=
  {| file := None; modelType := "resnet18"; loading := false;
     result := None |}.

(** [ImageUpload.handleSubmit]. *)
Definition ImageUpload_handleSubmit {D} (srv : call -> outcome D)
    (st : upload_state D) (ls : gmap string string)
  : upload_state D * effects :=
  match file st with
  | None =>
      (st,
       {| storage := ls;
          toasts := [ToastError (Str "Please select an image")];
          navigations := []; sent := []; console_errors := 0 |})
  | Some f =>
      let c := processImage_call ls f (modelType st) in
      match axios srv c with
      | inr response =>
          ({| file := file st; modelType := modelType st; loading := false;
              result := Some response |},
           {| storage := ls;
              toasts := [ToastSuccess "Image processed successfully"];
              navigations := []; sent := [c]; console_errors := 0 |})
      | inl e =>
          ({| file := file st; modelType := modelType st; loading := false;
              result := result st |},
           {| storage := ls;
              toasts := [failure_toast e "Failed to process image"];
              navigations := []; sent := [c]; console_errors := 0 |})
      end
  end.

Record stats_state {D : Type} := {
  stats : option D;
  st_loading : bool
}.
Arguments stats_state : clear implicits.

(** [ProofStats]: [useState(null)], [useState(true)]. *)
Definition ProofStats_initial {D} : stats_state D :=
  {| stats := None; st_loading := true |}.

(** [ProofStats.fetchStats], run on mount and then every 30 seconds. *)
Definition ProofStats_fetchStats {D} (srv : call -> outcome D)
    (st : stats_state D) (ls : gmap string string)
  : stats_state D * effects :=
  let c := getProofStats_call ls in
  match axios srv c with
  | inr response =>
      ({| stats := Some response; st_loading := false |},
       {| storage := ls; toasts := []; navigations := []; sent := [c];
          console_errors := 0 |})
  | inl _ =>
      ({| stats := stats st; st_loading := false |},
       {| storage := ls; toasts := []; navigations := []; sent := [c];
          console_errors := 1 |})
  end.

(** The refreshes of a mounted [ProofStats], one server answer each. *)
Fixpoint ProofStats_refreshes {D} (answers : list (call -> outcome D))
    (st : stats_state D) (ls : gmap string string) : stats_state D :=
  match answers with
  | [] => st
  | srv :: rest =>
      ProofStats_refreshes rest (ProofStats_fetchStats srv st ls).1 ls
  end.

(** What a handler leaves when its request fails with the error [e]: one
    request sent, the storage as it was, no navigation, and one error
    toast.  Its message is the [detail] of the response when there is a
    response and its [detail] is truthy, and the handler's own text
    [fallback] otherwise; either way it is a truthy value. *)
Definition failed_quietly {D} (ls : gmap string string) (c : call)
    (e : thrown D) (fallback : string) (eff : effects) : Prop :=
  storage eff = ls ∧ navigations eff = [] ∧ sent eff = [c] ∧
  ∃ m, toasts eff = [ToastError m] ∧ truthy m = true ∧
       match e with
       | Some r => if truthy (detail r) then m = detail r
                   else m = Str fallback
       | None => m = Str fallback
       end.

(** The Authorization header a request should carry for the storage
    [ls], in the words of the interceptor: [Bearer] and the token, when
    a non-empty token is stored. *)
Definition bearer (ls : gmap string string) : option string :=
  match ls !! "token" with
  | Some t => if bool_decide (t = "") then None else Some ("Bearer " +:+ t)
  | None => None
  end.

End Web.

(** ** What the constraints of the schema promise *)

Module Schema.

(** A UNIQUE column: no two rows of [users] agree on it. *)
Definition unique_on {A} (f : Users.row -> A) (us : gmap Z Users.row)
  : Prop :=
  ∀ i j ri rj, us !! i = Some ri -> us !! j = Some rj -> f ri = f rj -> i = j.

(** Every stored VARCHAR(255) value fits its column: it has at most 255
    characters. *)
Definition fits (d : Db.t) : Prop :=
  (∀ i r, Db.users d !! i = Some r ->
     (Sql.char_length (Users.username r) <= 255)%nat ∧
     (Sql.char_length (Users.email r) <= 255)%nat ∧
     (Sql.char_length (Users.password_hash r) <= 255)%nat) ∧
  (∀ i r, Db.requests d !! i = Some r ->
     (Sql.char_length (Requests.model_type r) <= 255)%nat ∧
     (Sql.char_length (Requests.image_path r) <= 255)%nat).



End Schema.

(** ** Sample data

    The rows of the commented-out test data of [init.sql], and a few
    statements over them. *)

Module Sample.

Definition test_user : Users.insert :=
  {| Users.i_id := None;
     Users.i_username := Some "test_user";
     Users.i_email := Some "test@example.com";
     Users.i_password_hash := Some "your_hashed_password_here";
     Users.i_proof_threshold := Some (Some 100);
     Users.i_total_proofs := None;
     Users.i_successful_proofs := None;
     Users.i_success_rate := None |}.




(** [test_user] after [t] proofs, [s] of them successful, with the rate
    [q] stored. *)
Definition account (t s : Z) (q : Q) : Users.row :=
  {| Users.username := "test_user";
     Users.email := "test@example.com";
     Users.password_hash := "your_hashed_password_here";
     Users.proof_threshold := Some 100;
     Users.total_proofs := Some t;
     Users.successful_proofs := Some s;
     Users.success_rate := Some q |}.

(** [test_user] with both counters NULL, which the columns allow. *)
Definition account_without_counts : Users.row :=
  {| Users.username := "test_user";
     Users.email := "test@example.com";
     Users.password_hash := "your_hashed_password_here";
     Users.proof_threshold := Some 100;
     Users.total_proofs := None;
     Users.successful_proofs := None;
     Users.success_rate := Some 0%Q |}.

(** [UPDATE users SET total_proofs = t, successful_proofs = s]. *)
Definition set_counters (t s : Z) : Users.update :=
  {| Users.u_username := None; Users.u_email := None;
     Users.u_password_hash := None; Users.u_proof_threshold := None;
     Users.u_total_proofs := Some (λ _, Some t);
     Users.u_successful_proofs := Some (λ _, Some s);
     Users.u_success_rate := None |}.


(** [INSERT INTO requests (user_id, model_type, image_path) VALUES
    (1, 'ResNet-18', '/path/to/test/image1.jpg')]. *)
Definition image1 : Requests.insert :=
  {| Requests.i_id := None;
     Requests.i_user_id := Some 1;
     Requests.i_model_type := Some "ResNet-18";
     Requests.i_image_path := Some "/path/to/test/image1.jpg";
     Requests.i_result := None;
     Requests.i_created_at := None;
     Requests.i_proof_generated := None;
     Requests.i_proof_verified := None |}.

(** The second user of the test data. *)
Definition admin : Users.insert :=
  {| Users.i_id := None;
     Users.i_username := Some "admin";
     Users.i_email := Some "admin@example.com";
     Users.i_password_hash := Some "your_admin_hashed_password_here";
     Users.i_proof_threshold := Some (Some 100);
     Users.i_total_proofs := None;
     Users.i_successful_proofs := None;
     Users.i_success_rate := None |}.

(** The same request written with a proof status of its own. *)
Definition image1_verified : Requests.insert :=
  {| Requests.i_id := None;
     Requests.i_user_id := Some 1;
     Requests.i_model_type := Some "ResNet-18";
     Requests.i_image_path := Some "/path/to/test/image1.jpg";
     Requests.i_result := None;
     Requests.i_created_at := None;
     Requests.i_proof_generated := Some (Some false);
     Requests.i_proof_verified := Some (Some true) |}.

(** The database holding [test_user] alone, under key 1. *)
Definition one_user (r : Users.row) : Db.t :=
  {| Db.users := {[ 1 := r ]}; Db.requests := ∅;
     Db.users_id_seq := 1; Db.requests_id_seq := 0 |}.



(** [test_user] with the threshold [n] and no proof yet. *)
Definition account_with_threshold (n : Z) : Users.row :=
  {| Users.username := "test_user";
     Users.email := "test@example.com";
     Users.password_hash := "your_hashed_password_here";
     Users.proof_threshold := Some n;
     Users.total_proofs := Some 0;
     Users.successful_proofs := Some 0;
     Users.success_rate := Some 0%Q |}.

(** A server that answers every request with 200. *)
Definition accepting (_ : Api.request) : Api.response :=
  {| Api.status := 200; Api.data := "{}" |}.

(** Collaborators of the orchestrator for a model the compiler does not
    support: the inference answers a label, the compilation fails. *)
Definition infer_label (m : bool) (x : Z) : string + Z := inr (x mod 10).

Definition compile_unsupported (m : bool)
  : option (Pipeline.CircuitArtifact unit unit unit) := None.

Definition build_unit (c : unit) (x y : Z) : option unit := Some tt.

Definition prove_unit (c w k : unit) : option (unit * unit) :=
  Some (tt, tt).

Definition verify_unit (p io k : unit) : option bool := Some true.

(** A user who has every request proved, before the first request. *)
Definition first_request : Pipeline.world bool unit unit unit :=
  {| Pipeline.counters := ∅;
     Pipeline.compiled := λ _ : bool, None;
     Pipeline.db := one_user (account_with_threshold 1) |}.

End Sample.

(** * Properties *)

(** ** The trigger [trigger_update_success_rate] *)

Section Trigger.

Import Users.

(** The recomputed rate is a function of the two counters of [NEW]. *)
Lemma trigger_recomputes NEW t :
  total_proofs NEW = Some t -> 0 < t ->
  update_user_success_rate NEW
  = with_success_rate NEW
      ((λ s, Ledger.rate_of s t) <$> successful_proofs NEW).
Proof.
  intros Ht Hpos. unfold update_user_success_rate. rewrite Ht. simpl.
  replace (t >? 0) with true by (symmetry; apply Z.gtb_lt; lia).
  simpl. destruct (successful_proofs NEW); reflexivity.
Qed.

(** With [total_proofs] at most 0, or NULL, the trigger returns [NEW]
    untouched. *)
Lemma trigger_skips NEW :
  (∀ t, total_proofs NEW = Some t -> t <= 0) ->
  update_user_success_rate NEW = NEW.
Proof.
  intros H. unfold update_user_success_rate.
  destruct (total_proofs NEW) as [t|] eqn:Ht; simpl; [|reflexivity].
  specialize (H t eq_refl).
  replace (t >? 0) with false; [reflexivity|].
  symmetry. rewrite Z.gtb_ltb. apply Z.ltb_ge. lia.
Qed.

(** The trigger writes no column but [success_rate]. *)
Lemma trigger_frame NEW :
  let r := update_user_success_rate NEW in
  username r = username NEW ∧ email r = email NEW ∧
  password_hash r = password_hash NEW ∧
  proof_threshold r = proof_threshold NEW ∧
  total_proofs r = total_proofs NEW ∧
  successful_proofs r = successful_proofs NEW.
Proof.
  unfold update_user_success_rate.
  destruct (Sql.is_true _); simpl; repeat split; reflexivity.
Qed.

Lemma updated_total s OLD NEW :
  updated s OLD = Some NEW ->
  total_proofs NEW = total_proofs (assigned s OLD) ∧
  successful_proofs NEW = successful_proofs (assigned s OLD).
Proof.
  unfold updated. destruct (fits s OLD); [|discriminate].
  intros [= <-]. destruct (fires s); [|split; reflexivity].
  split; apply trigger_frame.
Qed.

(** C8. The success-rate trigger recomputes [success_rate] only when the
    new [total_proofs] is strictly greater than 0.  On a row with
    [total_proofs > 0] the stored rate is the quotient of the new
    counters; on a row whose [total_proofs] is 0 (or negative, or NULL)
    the trigger function returns the row as it received it.  Hence an
    UPDATE that leaves [total_proofs = 0] stores the rate the statement
    itself carries, which is the old row's rate unless the statement
    assigns the column, and an INSERT that leaves [total_proofs = 0]
    stores the written rate, which is the column DEFAULT 0.0 unless the
    statement supplies one. *)
Theorem trigger_recomputes_only_when_total_positive :
  (∀ NEW t, total_proofs NEW = Some t -> 0 < t ->
     success_rate (update_user_success_rate NEW)
     = (λ s, Ledger.rate_of s t) <$> successful_proofs NEW) ∧
  (∀ NEW, (∀ t, total_proofs NEW = Some t -> t <= 0) ->
     update_user_success_rate NEW = NEW) ∧
  (∀ s OLD NEW, updated s OLD = Some NEW -> total_proofs NEW = Some 0 ->
     success_rate NEW = Sql.or_old OLD (success_rate OLD) (u_success_rate s)
     ∧ (u_success_rate s = None -> success_rate NEW = success_rate OLD)) ∧
  (∀ s NEW, inserted s = Some NEW -> total_proofs NEW = Some 0 ->
     success_rate NEW = Sql.or_default (Some 0%Q) (i_success_rate s)
     ∧ (i_success_rate s = None -> success_rate NEW = Some 0%Q)).
Proof.
  split; [|split; [|split]].
  - intros NEW t Ht Hpos. rewrite (trigger_recomputes NEW t Ht Hpos).
    reflexivity.
  - exact trigger_skips.
  - intros s OLD NEW Hupd Hzero.
    assert (Hrate : success_rate NEW = success_rate (assigned s OLD)).
    { destruct (updated_total _ _ _ Hupd) as [Ht _].
      rewrite Hzero in Ht. revert Hupd. unfold updated.
      destruct (fits s OLD); [|discriminate]. intros [= <-].
      destruct (fires s); [|reflexivity].
      rewrite trigger_skips; [reflexivity|].
      intros t Htt. rewrite <- Ht in Htt. injection Htt as <-. lia. }
    split; [exact Hrate|].
    intros Hnone. rewrite Hrate. simpl. rewrite Hnone. reflexivity.
  - intros s NEW Hins Hzero. unfold inserted in Hins.
    destruct (proposed s) as [P|] eqn:HP; [|discriminate].
    injection Hins as <-.
    assert (Ht : total_proofs P = Some 0).
    { rewrite <- Hzero. symmetry. apply trigger_frame. }
    rewrite trigger_skips
      by (intros t Htt; rewrite Ht in Htt; injection Htt as <-; lia).
    assert (Hrate : success_rate P
                    = Sql.or_default (Some 0%Q) (i_success_rate s)).
    { revert HP. unfold proposed.
      destruct (i_username s), (i_email s), (i_password_hash s);
        try discriminate.
      destruct (_ && _); [|discriminate]. intros [= <-]. reflexivity. }
    split; [exact Hrate|].
    intros Hnone. rewrite Hrate, Hnone. reflexivity.
Qed.

End Trigger.

Section TriggerWitness.

Import Users.

Lemma trigger_recomputes_only_when_total_positive_witness :
  success_rate (update_user_success_rate (Sample.account 4 3 0))
  = Some (75 # 1)%Q
  ∧ update_user_success_rate (Sample.account 0 0 (50 # 1))
    = Sample.account 0 0 (50 # 1)
  ∧ (updated (Sample.set_counters 0 0) (Sample.account 4 2 (50 # 1))
     = Some (Sample.account 0 0 (50 # 1))
     ∧ success_rate (Sample.account 0 0 (50 # 1))
       = success_rate (Sample.account 4 2 (50 # 1)))
  ∧ ∃ NEW, inserted Sample.test_user = Some NEW
           ∧ total_proofs NEW = Some 0 ∧ success_rate NEW = Some 0%Q.
Proof.
  destruct trigger_recomputes_only_when_total_positive
    as (Hpos & Hskip & Hupd & Hins).
  split; [|split; [|split]].
  - apply (Hpos (Sample.account 4 3 0) 4); [reflexivity | lia].
  - apply Hskip. intros t [= <-]. lia.
  - split; [reflexivity|].
    apply (Hupd (Sample.set_counters 0 0) (Sample.account 4 2 (50 # 1))
             (Sample.account 0 0 (50 # 1)));
      reflexivity.
  - eexists. split; [reflexivity|]. split; [reflexivity|].
    eapply (Hins Sample.test_user); reflexivity.
Defined.

End TriggerWitness.

(** ** The Outcome Ledger over the trigger *)

Section LedgerProofs.

Import Ledger.

(** The stored quotient lies between 0 and 100 when the counters are
    counts. *)
Lemma rate_of_range s t :
  0 <= s <= t -> 0 < t -> (0 <= rate_of s t <= 100 # 1)%Q.
Proof.
  intros Hs Ht. unfold rate_of. rewrite Qred_correct.
  destruct t as [|p|p]; try lia.
  unfold Qle, Qmult, Qdiv, Qinv, inject_Z; simpl. split; nia.
Qed.

Lemma consistent_range r q :
  consistent r -> Users.success_rate r = Some q ->
  (0 <= q <= 100 # 1)%Q.
Proof.
  intros (s & t & _ & _ & Hst & Hq) Hr. rewrite Hq in Hr.
  injection Hr as <-. destruct (t =? 0) eqn:E.
  - split; discriminate.
  - apply Z.eqb_neq in E. apply rate_of_range; lia.
Qed.



(** The row that booking [o] writes over [r]. *)
Lemma record_attempted userId o d r :
  attempted o = true -> Db.users d !! userId = Some r ->
  record userId o d
  = Some (Db.with_users d
            (<[userId := Users.update_user_success_rate
                           (Users.assigned (booking o) r)]> (Db.users d))).
Proof.
  intros Ha Hr. unfold record. rewrite Ha. unfold Db.update_user.
  rewrite Hr. unfold Users.updated, Users.fits. simpl.
  rewrite bool_decide_eq_true_2 by reflexivity. reflexivity.
Qed.

Lemma record_unknown userId o d :
  Db.users d !! userId = None -> record userId o d = Some d.
Proof.
  intros Hr. unfold record, Db.update_user. rewrite Hr.
  destruct (attempted o); reflexivity.
Qed.

(** Booking an attempted outcome on counts [s], [t]. *)
Lemma booked_row o r s t :
  attempted o = true ->
  Users.successful_proofs r = Some s -> Users.total_proofs r = Some t ->
  0 <= t ->
  let r' := Users.update_user_success_rate (Users.assigned (booking o) r) in
  let s' := s + (if is_succeeded o then 1 else 0) in
  Users.total_proofs r' = Some (t + 1) ∧
  Users.successful_proofs r' = Some s' ∧
  Users.success_rate r' = Some (rate_of s' (t + 1)) ∧
  Users.username r' = Users.username r ∧ Users.email r' = Users.email r ∧
  Users.password_hash r' = Users.password_hash r ∧
  Users.proof_threshold r' = Users.proof_threshold r.
Proof.
  intros Ha Hs Ht Hpos r' s'.
  assert (HT : Users.total_proofs (Users.assigned (booking o) r)
               = Some (t + 1)).
  { simpl. rewrite Ht. reflexivity. }
  assert (HS : Users.successful_proofs (Users.assigned (booking o) r)
               = Some s').
  { subst s'. simpl. destruct (is_succeeded o); simpl; rewrite Hs; simpl;
      f_equal; lia. }
  subst r'. rewrite (trigger_recomputes _ (t + 1) HT) by lia.
  rewrite HS. simpl. repeat split; assumption.
Qed.




End LedgerProofs.

Section LedgerClaims.

Import Ledger.

(** The statement of [record] on counts [s], [t], in the arithmetic of
    [Z]: what the UPDATE writes when its additions are inside the INTEGER
    range. *)
Lemma record_books
    (userId : Z) (o : ProofOutcome) (d : Db.t) (r : Users.row) (s t : Z) :
  Db.users d !! userId = Some r ->
  Users.successful_proofs r = Some s -> Users.total_proofs r = Some t ->
  0 <= t ->
  ∃ d',
    record userId o d = Some d' ∧
    Db.requests d' = Db.requests d ∧
    (∀ u, u ≠ userId -> Db.users d' !! u = Db.users d !! u) ∧
    (attempted o = false -> d' = d) ∧
    (attempted o = true ->
       record userId o d
       = Db.exec (Db.UpdateUser userId None (booking o)) d ∧
       ∃ r',
         Db.users d' !! userId = Some r' ∧
         Users.total_proofs r' = Some (t + 1) ∧
         Users.successful_proofs r'
         = Some (if is_succeeded o then s + 1 else s) ∧
         Users.success_rate r'
         = Some (rate_of (if is_succeeded o then s + 1 else s) (t + 1)) ∧
         Users.proof_threshold r' = Users.proof_threshold r ∧
         Users.username r' = Users.username r ∧
         Users.email r' = Users.email r ∧
         Users.password_hash r' = Users.password_hash r).
Proof.
  intros Hr Hs Ht Hpos. destruct (attempted o) eqn:Ha.
  - rewrite (record_attempted _ _ _ _ Ha Hr).
    eexists. split; [reflexivity|]. split; [reflexivity|].
    split; [|split; [discriminate|]].
    { intros u Hu. simpl. apply lookup_insert_ne. congruence. }
    intros _. split.
    { simpl. unfold record in *. rewrite <- (record_attempted _ _ _ _ Ha Hr).
      unfold record. rewrite Ha. reflexivity. }
    destruct (booked_row o r s t Ha Hs Ht Hpos)
      as (HT & HS & HQ & HU & HE & HP & HN).
    eexists. split; [simpl; apply lookup_insert_eq|].
    replace (if is_succeeded o then s + 1 else s)
      with (s + (if is_succeeded o then 1 else 0))
      by (destruct (is_succeeded o); lia).
    repeat split; assumption.
  - exists d. unfold record. rewrite Ha.
    split; [reflexivity|]. split; [reflexivity|].
    split; [reflexivity|]. split; [reflexivity | discriminate].
Qed.

(** The range check of the booking on counts [s], [t]. *)
Lemma booking_in_range o r s t :
  Users.successful_proofs r = Some s -> Users.total_proofs r = Some t ->
  Users.in_range (booking o) r
  = Sql.int4 (t + 1) && (if is_succeeded o then Sql.int4 (s + 1) else true).
Proof.
  intros Hs Ht. unfold Users.in_range, booking. simpl.
  rewrite Ht. simpl. destruct (is_succeeded o); simpl; [|reflexivity].
  rewrite Hs. reflexivity.
Qed.

(** C3, as the code has it.  A not-attempted outcome leaves the database
    as it is.  On a user whose counters are counts ([total_proofs] not
    NULL and not negative, [successful_proofs] not NULL), and which the
    increment does not take past the INTEGER maximum 2147483647, an
    attempted outcome adds 1 to [total_proofs], adds 1 to
    [successful_proofs] exactly when the outcome is succeeded, and stores
    [success_rate] recomputed from the two new counters.  The
    three changes are one UPDATE statement on that user's row: no other
    column, no other user and no request changes.  At the INTEGER maximum
    the increment does not take place: an attempted outcome on
    [total_proofs = 2147483647], and a succeeded one on
    [successful_proofs = 2147483647], is rejected and nothing changes. *)
Theorem record_books_attempted_outcomes :
  (∀ (userId : Z) (d : Db.t), record_int4 userId not_attempted d = Some d) ∧
  (∀ (userId : Z) (o : ProofOutcome) (d : Db.t) (r : Users.row) (s t : Z),
     Db.users d !! userId = Some r ->
     Users.successful_proofs r = Some s -> Users.total_proofs r = Some t ->
     0 <= t < 2147483647 -> -2147483648 <= s <= 2147483647 ->
     (is_succeeded o = true -> s < 2147483647) ->
     ∃ d',
       record_int4 userId o d = Some d' ∧
       Db.requests d' = Db.requests d ∧
       (∀ u, u ≠ userId -> Db.users d' !! u = Db.users d !! u) ∧
       (attempted o = false -> d' = d) ∧
       (attempted o = true ->
          record_int4 userId o d
          = Db.exec (Db.UpdateUser userId None (booking o)) d ∧
          ∃ r',
            Db.users d' !! userId = Some r' ∧
            Users.total_proofs r' = Some (t + 1) ∧
            Users.successful_proofs r'
            = Some (if is_succeeded o then s + 1 else s) ∧
            Users.success_rate r'
            = Some (rate_of (if is_succeeded o then s + 1 else s) (t + 1)) ∧
            Users.proof_threshold r' = Users.proof_threshold r ∧
            Users.username r' = Users.username r ∧
            Users.email r' = Users.email r ∧
            Users.password_hash r' = Users.password_hash r)) ∧
  (∀ (userId : Z) (o : ProofOutcome) (d : Db.t) (r : Users.row),
     Db.users d !! userId = Some r -> attempted o = true ->
     Users.total_proofs r = Some 2147483647 ->
     record_int4 userId o d = None) ∧
  (∀ (userId : Z) (d : Db.t) (r : Users.row),
     Db.users d !! userId = Some r ->
     Users.successful_proofs r = Some 2147483647 ->
     record_int4 userId succeeded d = None).
Proof.
  split; [|split; [|split]].
  - intros userId d. unfold record_int4.
    destruct (Db.users d !! userId); reflexivity.
  - intros userId o d r s t Hr Hs Ht Hpos Hrange Hmax.
    assert (E : record_int4 userId o d = record userId o d).
    { unfold record_int4. rewrite Hr.
      rewrite (booking_in_range o r s t Hs Ht).
      replace (Sql.int4 (t + 1)) with true
        by (symmetry; unfold Sql.int4; apply andb_true_intro; split;
            apply Z.leb_le; lia).
      destruct (is_succeeded o); [|destruct (attempted o); reflexivity].
      specialize (Hmax eq_refl).
      replace (Sql.int4 (s + 1)) with true
        by (symmetry; unfold Sql.int4; apply andb_true_intro; split;
            apply Z.leb_le; lia).
      destruct (attempted o); reflexivity. }
    rewrite E.
    apply (record_books userId o d r s t Hr Hs Ht). lia.
  - intros userId o d r Hr Ha Ht. unfold record_int4. rewrite Hr, Ha.
    unfold Users.in_range, booking. simpl. rewrite Ht. reflexivity.
  - intros userId d r Hr Hs. unfold record_int4. rewrite Hr.
    unfold Users.in_range, booking. simpl. rewrite Hs. simpl.
    rewrite andb_false_r. reflexivity.
Qed.

Lemma record_books_attempted_outcomes_witness :
  ∃ d',
    record_int4 1 succeeded (Sample.one_user (Sample.account 3 3 (100 # 1)))
    = Some d' ∧
    Db.users d' !! 1 = Some (Sample.account 4 4 (100 # 1)).
Proof.
  destruct (proj1 (proj2 record_books_attempted_outcomes) 1 succeeded
              (Sample.one_user (Sample.account 3 3 (100 # 1)))
              (Sample.account 3 3 (100 # 1)) 3 3)
    as (d' & Hrec & _ & _ & _ & Hatt);
    [reflexivity | reflexivity | reflexivity | lia | lia | lia |].
  exists d'. split; [exact Hrec|].
  destruct (Hatt eq_refl) as (_ & r' & Hr' & HT & HS & HQ & HN & HU & HE & HP).
  rewrite Hr'. f_equal.
  destruct r'; simpl in *. subst. reflexivity.
Defined.

(** C3 as stated fails on the columns of the schema.  On a consistent
    row with [total_proofs = 2147483647] a failed outcome, which is an
    attempted one, is not booked: [total_proofs + 1] leaves the 32-bit
    range and the UPDATE is rejected.  The columns also admit rows that
    hold no counts: on NULL counters a succeeded outcome changes nothing,
    and on [total_proofs = -1] a failed outcome leaves [total_proofs = 0]
    beside the old rate 50, which the trigger does not recompute. *)
Lemma record_at_integer_maximum_counterexample :
  (consistent (Sample.account 2147483647 0 0) ∧
   attempted failed = true ∧
   Sql.int4 2147483648 = false ∧
   record_int4 1 failed (Sample.one_user (Sample.account 2147483647 0 0))
   = None) ∧
  record_int4 1 succeeded (Sample.one_user Sample.account_without_counts)
  = Some (Sample.one_user Sample.account_without_counts) ∧
  record_int4 1 failed (Sample.one_user (Sample.account (-1) 0 (50 # 1)))
  = Some (Sample.one_user (Sample.account 0 0 (50 # 1))).
Proof.
  split; [|split; reflexivity].
  split; [|split; [|split]]; try reflexivity.
  exists 0, 2147483647. repeat split; try reflexivity; lia.
Qed.





End LedgerClaims.

(** ** The Sampling Gate *)

Section GateProofs.

Import Gate.

(** One more request crosses a multiple of [N] exactly when its number
    is one. *)
Lemma div_succ_step N c :
  1 <= N -> (c + 1) / N = c / N + (if (c + 1) mod N =? 0 then 1 else 0).
Proof.
  intros HN.
  pose proof (Z.div_mod c N ltac:(lia)) as Hc.
  pose proof (Z.mod_pos_bound c N ltac:(lia)) as Hb.
  destruct (Z.eq_dec (c mod N) (N - 1)) as [E|E].
  - assert (Hd : c + 1 = N * (c / N + 1) + 0) by lia.
    rewrite <- (Z.mod_unique_pos (c + 1) N (c / N + 1) 0 ltac:(lia) Hd).
    rewrite <- (Z.div_unique_pos (c + 1) N (c / N + 1) 0 ltac:(lia) Hd).
    simpl. reflexivity.
  - assert (Hd : c + 1 = N * (c / N) + (c mod N + 1)) by lia.
    rewrite <- (Z.mod_unique_pos (c + 1) N (c / N) (c mod N + 1)
                  ltac:(lia) Hd).
    rewrite <- (Z.div_unique_pos (c + 1) N (c / N) (c mod N + 1)
                  ltac:(lia) Hd).
    replace (c mod N + 1 =? 0) with false
      by (symmetry; apply Z.eqb_neq; lia).
    lia.
Qed.

Lemma every_Nth_length N M : ∀ c, length (every_Nth N c M) = M.
Proof.
  induction M as [|M IH]; intros c; simpl; [reflexivity|].
  rewrite IH. reflexivity.
Qed.

(** The decision on the [i]-th next request (from 0) looks at the number
    of that request. *)
Lemma every_Nth_lookup N M : ∀ c (i : nat),
  (i < M)%nat ->
  every_Nth N c M !! i = Some ((c + 1 + Z.of_nat i) mod N =? 0).
Proof.
  induction M as [|M IH]; intros c i Hi; [lia|]. simpl.
  destruct i as [|i]; simpl.
  - rewrite Z.add_0_r. reflexivity.
  - rewrite (IH (c + 1) i ltac:(lia)). do 3 f_equal. lia.
Qed.

(** The number of firings among the next [M] requests is the number of
    multiples of the threshold the counter passes. *)
Lemma every_Nth_fired N M : ∀ c,
  1 <= N -> fired (every_Nth N c M) = (c + Z.of_nat M) / N - c / N.
Proof.
  induction M as [|M IH]; intros c HN.
  - simpl. rewrite Z.add_0_r. lia.
  - cbn [every_Nth fired]. rewrite (IH (c + 1) HN).
    rewrite (div_succ_step N c HN).
    replace (c + Z.of_nat (S M)) with (c + 1 + Z.of_nat M) by lia.
    destruct (_ =? 0); lia.
Qed.

Lemma counter_of_insert u v c cs :
  counter_of u (<[v := c]> cs)
  = if bool_decide (v = u) then c else counter_of u cs.
Proof.
  unfold counter_of. case_bool_decide as E.
  - rewrite E, lookup_insert_eq. reflexivity.
  - rewrite lookup_insert_ne by assumption. reflexivity.
Qed.

(** The gate refines the policy, user by user: whatever other users'
    requests arrive in between, the decisions taken for [userId] are
    those of the policy on the user's own request numbers, and the
    user's counter has advanced by the user's own requests. *)
Lemma serve_every_Nth userId N d arrivals : ∀ cs,
  threshold_of userId d = Some N ->
  decisions_of userId (serve arrivals d cs).1
  = every_Nth N (counter_of userId cs) (eligible userId arrivals) ∧
  counter_of userId (serve arrivals d cs).2
  = counter_of userId cs + Z.of_nat (eligible userId arrivals).
Proof.
  induction arrivals as [|u rest IH]; intros cs HN.
  - simpl. split; [reflexivity | lia].
  - cbn [serve shouldProve].
    specialize (IH (<[u := counter_of u cs + 1]> cs) HN).
    destruct (serve rest d _) as [ds cs''].
    cbn [fst snd decisions_of eligible] in *.
    rewrite counter_of_insert in IH. destruct IH as [IHd IHc].
    case_bool_decide as E.
    + subst u. rewrite HN. cbn [every_Nth]. rewrite IHd.
      split; [reflexivity | lia].
    + split; assumption.
Qed.

(** C1. For every threshold [N >= 1] and every user with that
    [proof_threshold], take any arrival order of eligible requests, [M]
    of which are the user's, starting at account creation.  The gate
    takes [M] decisions for the user; the decision on the user's request
    number [k] (counted from 1) is to prove exactly when [k] is a
    multiple of [N], so the gate fires on the user's requests N, 2N, 3N,
    ... and on no other, [M / N] times in all (the quotient rounded
    down); and the user's SamplingCounter ends at [M]. *)
Theorem gate_fires_on_every_Nth_request
    (userId N : Z) (d : Db.t) (cs : gmap Z Z) (arrivals : list Z) :
  1 <= N -> threshold_of userId d = Some N -> counter_of userId cs = 0 ->
  length (decisions_of userId (serve arrivals d cs).1)
  = eligible userId arrivals ∧
  (∀ k : nat, (1 <= k <= eligible userId arrivals)%nat ->
     ∃ b, decisions_of userId (serve arrivals d cs).1 !! (k - 1)%nat = Some b
          ∧ (b = true ↔ ∃ j, Z.of_nat k = j * N)) ∧
  fired (decisions_of userId (serve arrivals d cs).1)
  = Z.of_nat (eligible userId arrivals) / N ∧
  counter_of userId (serve arrivals d cs).2
  = Z.of_nat (eligible userId arrivals).
Proof.
  intros HN Hthr Hc0.
  destruct (serve_every_Nth userId N d arrivals cs Hthr) as [Hd Hc].
  rewrite Hd, Hc, Hc0. split; [apply every_Nth_length|]. split; [|split].
  - intros k Hk. eexists. split.
    + apply every_Nth_lookup. lia.
    + replace (0 + 1 + Z.of_nat (k - 1)) with (Z.of_nat k) by lia.
      rewrite Z.eqb_eq. rewrite Z.mod_divide by lia.
      unfold Z.divide. reflexivity.
  - rewrite every_Nth_fired by assumption.
    rewrite Z.add_0_l, Zdiv_0_l. lia.
  - lia.
Qed.

(** Threshold 5: twelve requests of user 1, with requests of user 2 in
    between; the gate fires on the fifth and the tenth of user 1. *)
Lemma gate_fires_on_every_Nth_request_witness :
  decisions_of 1
    (serve [1; 1; 2; 1; 1; 2; 1; 1; 1; 1; 1; 2; 2; 1; 1; 1]
       (Sample.one_user (Sample.account_with_threshold 5)) ∅).1
  = [false; false; false; false; true;
     false; false; false; false; true; false; false]
  ∧ fired (decisions_of 1
             (serve [1; 1; 2; 1; 1; 2; 1; 1; 1; 1; 1; 2; 2; 1; 1; 1]
                (Sample.one_user (Sample.account_with_threshold 5)) ∅).1)
    = 2.
Proof.
  split; [reflexivity|].
  rewrite (proj1 (proj2 (proj2
             (gate_fires_on_every_Nth_request 1 5
                (Sample.one_user (Sample.account_with_threshold 5)) ∅
                [1; 1; 2; 1; 1; 2; 1; 1; 1; 1; 1; 2; 2; 1; 1; 1]
                ltac:(lia) ltac:(reflexivity) ltac:(reflexivity))))).
  reflexivity.
Defined.

End GateProofs.

(** ** The Pipeline Orchestrator *)

Section PipelineProofs.

Import Pipeline.

Context {Model Image Output InferenceError : Type}.
Context {Circuit PK VK Witness Proof PublicIO : Type}.
Context `{EqDecision Model}.

Variable infer : Model -> Image -> InferenceError + Output.
Variable compile : Model -> option (CircuitArtifact Circuit PK VK).
Variable build : Circuit -> Image -> Output -> option Witness.
Variable prove : Circuit -> Witness -> PK -> option (Proof * PublicIO).
Variable verify : Proof -> PublicIO -> VK -> option bool.

(** The attempt ends in a verified proof or in a fault, and it ends in a
    fault exactly when a stage fails. *)
Lemma attempt_fails_iff a x y :
  pipeline_fails build prove verify a x y
  ↔ outcome_of (attempt build prove verify a x y) = Ledger.failed.
Proof.
  unfold pipeline_fails, attempt.
  destruct a as [art|]; simpl.
  2:{ split; [reflexivity | intros _; left; reflexivity]. }
  destruct (build (circuit art) x y) as [w|] eqn:Hb; simpl.
  2:{ split; [reflexivity|]. intros _. right. exists art.
      split; [reflexivity|]. left. exact Hb. }
  destruct (prove (circuit art) w (proving_key art)) as [[p io]|] eqn:Hp;
    simpl.
  2:{ split; [reflexivity|]. intros _. right. exists art.
      split; [reflexivity|]. right. exists w. split; [exact Hb|].
      left. exact Hp. }
  destruct (verify p io (verification_key art)) as [[|]|] eqn:Hv; simpl.
  - split; [|discriminate].
    intros [Hn|(art' & Ha & Hrest)]; [discriminate|].
    injection Ha as <-.
    destruct Hrest as [Hb'|(w' & Hw' & Hrest)]; [congruence|].
    rewrite Hb in Hw'. injection Hw' as <-.
    destruct Hrest as [Hp'|(p' & io' & Hp' & Hv')]; [congruence|].
    rewrite Hp in Hp'. injection Hp' as <- <-.
    rewrite Hv in Hv'. destruct Hv'; discriminate.
  - split; [reflexivity|]. intros _. right. exists art.
    split; [reflexivity|]. right. exists w. split; [exact Hb|].
    right. exists p, io. split; [exact Hp|]. right. exact Hv.
  - split; [reflexivity|]. intros _. right. exists art.
    split; [reflexivity|]. right. exists w. split; [exact Hb|].
    right. exists p, io. split; [exact Hp|]. left. exact Hv.
Qed.

(** C6. For every request whose inference succeeds with [y], whatever
    the collaborators do afterwards, the orchestrator delivers [y] to
    the caller.  It never answers with a request failure.  When the
    gate selects the request and a stage of the proof pipeline fails
    (compilation, witness, prover, or a verifier that throws or answers
    false) the outcome is [failed], carried beside the classification
    and handed to the ledger; a request the gate skips is
    [not_attempted]. *)
Theorem proof_failure_is_not_a_request_failure
    (userId : Z) (m : Model) (x : Image) (w : world Model Circuit PK VK)
    (y : Output) :
  infer m x = inr y ->
  ∃ o why w',
    handle infer compile build prove verify userId m x w
    = (Delivered y o why, w') ∧
    db w' = default (db w) (Ledger.record userId o (db w)) ∧
    counters w' = (Gate.shouldProve userId (db w) (counters w)).2 ∧
    ((Gate.shouldProve userId (db w) (counters w)).1 = false ->
       o = Ledger.not_attempted) ∧
    ((Gate.shouldProve userId (db w) (counters w)).1 = true ->
       (pipeline_fails build prove verify
          (ensure_compiled compile m (compiled w)).1 x y
        ↔ o = Ledger.failed) ∧
       (o = Ledger.failed ∨ o = Ledger.succeeded) ∧
       (o = Ledger.failed -> ∃ e, why = Some e)).
Proof.
  intros Hy. unfold handle. rewrite Hy.
  destruct (Gate.shouldProve userId (db w) (counters w)) as [[|] cs].
  - destruct (ensure_compiled compile m (compiled w)) as [a c]. simpl.
    eexists _, _, _. split; [reflexivity|]. split; [reflexivity|].
    split; [reflexivity|].
    split; [discriminate|]. intros _. split; [apply attempt_fails_iff|].
    destruct (attempt build prove verify a x y) as [e|[]]; simpl.
    + split; [left; reflexivity|]. intros _. exists e. reflexivity.
    + split; [right; reflexivity | discriminate].
  - eexists _, _, _. split; [reflexivity|]. split; [reflexivity|].
    split; [reflexivity|]. split; [reflexivity | discriminate].
Qed.

End PipelineProofs.

Section PipelineWitness.

Import Pipeline.

(** A sampled request on a model that does not compile: the label is
    delivered, the outcome is failed. *)
Lemma proof_failure_is_not_a_request_failure_witness :
  ∃ w',
    handle Sample.infer_label Sample.compile_unsupported Sample.build_unit
      Sample.prove_unit Sample.verify_unit 1 true 37 Sample.first_request
    = (Delivered 7 Ledger.failed (Some CompilationError), w').
Proof.
  destruct (proof_failure_is_not_a_request_failure
              Sample.infer_label Sample.compile_unsupported
              Sample.build_unit Sample.prove_unit Sample.verify_unit
              1 true 37 Sample.first_request 7 eq_refl)
    as (o & why & w' & Hh & _ & _ & _ & Hsel).
  exists w'. rewrite Hh.
  destruct (Hsel eq_refl) as (Hfail & _ & _).
  assert (Ho : o = Ledger.failed) by (apply Hfail; left; reflexivity).
  subst o. vm_compute in Hh. injection Hh as <- _. reflexivity.
Defined.

End PipelineWitness.

(** ** The threshold update *)

Section SettingsProofs.

Import Settings.




(** What the sources themselves do with a threshold below 1.  The
    client [updateProofSettings] validates nothing: it posts whatever
    value the form holds and returns what the server answers. *)
Remark client_posts_any_threshold token post n :
  ∃ req,
    Api.url req
    = Api.API_URL +:+ "/settings?proof_threshold=" +:+ Api.template n ∧
    Api.method req = "POST" ∧
    Api.updateProofSettings token post n
    = if (200 <=? Api.status (post req)) && (Api.status (post req) <? 300)
      then inr (Api.data (post req)) else inl (post req).
Proof.
  exists {| Api.method := "POST";
            Api.url := Api.API_URL +:+ "/settings?proof_threshold="
                         +:+ Api.template n;
            Api.authorization := Api.interceptor token |}.
  split; [|split]; reflexivity.
Qed.

Example client_posts_zero :
  Api.updateProofSettings None Sample.accepting (Api.Num 0) = inr "{}"
  ∧ Api.template (Api.Num (-3)) = "-3" ∧ Api.template Api.NaN = "NaN".
Proof. repeat split; reflexivity. Qed.

(** And the column [proof_threshold] carries no CHECK: the UPDATE that
    stores 0 is accepted. *)
Example schema_stores_zero_threshold :
  Db.exec (Db.UpdateUser 1 None (assign_threshold 0))
    (Sample.one_user (Sample.account_with_threshold 5))
  = Some (Sample.one_user (Sample.account_with_threshold 0)).
Proof. reflexivity. Qed.

End SettingsProofs.

(** ** Table [requests]: defaults and the foreign key *)

Section RequestsProofs.

Import Db.

(** What an accepted INSERT of a request did. *)
Lemma insert_request_Some now s d d' :
  insert_request now s d = Some d' ->
  ∃ k r,
    Requests.inserted now s = Some r ∧
    requests d !! k = None ∧
    is_Some (users d !! Requests.user_id r) ∧
    requests d' = <[k := r]> (requests d) ∧ users d' = users d.
Proof.
  unfold insert_request.
  destruct (Requests.inserted now s) as [r|]; simpl; [|discriminate].
  destruct (match Requests.i_id s with
            | Some k => (k, requests_id_seq d)
            | None => (requests_id_seq d + 1, requests_id_seq d + 1)
            end) as [k seq].
  destruct (requests d !! k) eqn:Hk; [discriminate|].
  destruct (users d !! Requests.user_id r) eqn:Hu; [|discriminate].
  intros [= <-]. exists k, r. simpl. rewrite Hu. eauto 10.
Qed.

(** What an accepted UPDATE of an existing request did. *)
Lemma update_request_Some rid new_id c d d' OLD :
  requests d !! rid = Some OLD ->
  update_request rid new_id c d = Some d' ->
  users d' = users d ∧
  Requests.updated c OLD = Some (Requests.assigned c OLD) ∧
  (Requests.u_user_id c = None ∨
   is_Some (users d !! Requests.user_id (Requests.assigned c OLD))) ∧
  (requests d' = <[rid := Requests.assigned c OLD]> (requests d) ∧
   default rid new_id = rid
   ∨ requests d'
     = <[default rid new_id := Requests.assigned c OLD]>
         (delete rid (requests d)) ∧
     default rid new_id ≠ rid).
Proof.
  intros HOLD. unfold update_request. rewrite HOLD.
  unfold Requests.updated. destruct (Requests.fits c OLD); [|discriminate].
  simpl.
  assert (Hfk : guard_fk (Requests.u_user_id c) (users d)
                  (Requests.user_id (Requests.assigned c OLD)) ≠ None ->
                Requests.u_user_id c = None ∨
                is_Some (users d
                         !! Requests.user_id (Requests.assigned c OLD))).
  { unfold guard_fk. destruct (Requests.u_user_id c); [|left; reflexivity].
    destruct (users d !! _); [right; eauto | congruence]. }
  destruct (guard_fk _ _ _); [|discriminate].
  specialize (Hfk ltac:(discriminate)).
  case_bool_decide as Hk.
  - intros [= <-]. simpl. repeat split; try assumption. left.
    split; [reflexivity | assumption].
  - destruct (requests d !! default rid new_id); [discriminate|].
    intros [= <-]. simpl. repeat split; try assumption. right.
    split; [reflexivity | assumption].
Qed.

(** C9, as the schema has it.  A request record created by an INSERT
    that gives no value for [proof_generated] and [proof_verified]
    starts with [proof_generated = FALSE] and [proof_verified = NULL];
    and an UPDATE that does not assign one of the two columns leaves it
    as it was, so [proof_verified] stays NULL until a statement writes
    it.  (The schema has no constraint between the two columns: what
    values later statements write is up to the writer.) *)
Theorem request_starts_without_proof_status :
  (∀ now s d d',
     Requests.i_proof_generated s = None ->
     Requests.i_proof_verified s = None ->
     exec (InsertRequest now s) d = Some d' ->
     ∃ k r, requests d !! k = None ∧ requests d' !! k = Some r ∧
            Requests.proof_generated r = Some false ∧
            Requests.proof_verified r = None) ∧
  (∀ rid new_id c d d' OLD,
     requests d !! rid = Some OLD ->
     exec (UpdateRequest rid new_id c) d = Some d' ->
     ∃ NEW, requests d' !! default rid new_id = Some NEW ∧
       (Requests.u_proof_verified c = None ->
          Requests.proof_verified NEW = Requests.proof_verified OLD) ∧
       (Requests.u_proof_generated c = None ->
          Requests.proof_generated NEW = Requests.proof_generated OLD)).
Proof.
  split.
  - intros now s d d' Hg Hv Hex. simpl in Hex.
    destruct (insert_request_Some _ _ _ _ Hex)
      as (k & r & Hr & Hk & _ & Hreq & _).
    exists k, r. split; [exact Hk|]. split.
    { rewrite Hreq. apply lookup_insert_eq. }
    revert Hr. unfold Requests.inserted. rewrite Hg, Hv.
    destruct (Requests.i_user_id s), (Requests.i_model_type s),
      (Requests.i_image_path s); try discriminate.
    destruct (_ && _); [|discriminate]. intros [= <-].
    split; reflexivity.
  - intros rid new_id c d d' OLD HOLD Hex. simpl in Hex.
    destruct (update_request_Some _ _ _ _ _ _ HOLD Hex)
      as (_ & _ & _ & [[Hreq Hk]|[Hreq Hk]]).
    + exists (Requests.assigned c OLD). rewrite Hreq, Hk.
      split; [apply lookup_insert_eq|].
      split; intros Hn; simpl; rewrite Hn; reflexivity.
    + exists (Requests.assigned c OLD). rewrite Hreq.
      split; [apply lookup_insert_eq|].
      split; intros Hn; simpl; rewrite Hn; reflexivity.
Qed.

Lemma request_starts_without_proof_status_witness :
  ∃ d' k r,
    exec (InsertRequest 0 Sample.image1)
      (Sample.one_user (Sample.account 0 0 0)) = Some d' ∧
    requests d' !! k = Some r ∧
    Requests.proof_generated r = Some false ∧
    Requests.proof_verified r = None.
Proof.
  destruct (proj1 request_starts_without_proof_status 0 Sample.image1
              (Sample.one_user (Sample.account 0 0 0)) _
              eq_refl eq_refl eq_refl)
    as (k & r & _ & Hr & Hg & Hv).
  eexists _, k, r. split; [reflexivity|].
  split; [exact Hr|]. split; assumption.
Defined.

(** C9 as stated fails on the schema: the INSERT below is accepted and
    creates a request record that starts with [proof_verified = TRUE],
    beside [proof_generated = FALSE]. *)
Lemma request_created_with_proof_status_counterexample :
  ∃ d' r,
    exec (InsertRequest 0 Sample.image1_verified)
      (Sample.one_user (Sample.account 0 0 0)) = Some d' ∧
    requests d' !! 1 = Some r ∧
    Requests.proof_generated r = Some false ∧
    Requests.proof_verified r = Some true ∧
    Requests.proof_verified r ≠ None.
Proof.
  eexists _, _. split; [reflexivity|]. split; [reflexivity|].
  split; [reflexivity|]. split; [reflexivity | discriminate].
Qed.

End RequestsProofs.

Section ForeignKey.

Import Db.

(** A lookup after an insert: at the inserted key, or elsewhere. *)
Ltac by_key k i :=
  let E := fresh "E" in
  destruct (decide (k = i)) as [E|E];
  [ rewrite ?E, lookup_insert_eq
  | rewrite lookup_insert_ne by assumption ].

Lemma referenced_false rs uid rid r :
  referenced rs uid = false -> rs !! rid = Some r ->
  Requests.user_id r ≠ uid.
Proof.
  unfold referenced. intros Hf Hr Hu.
  apply bool_decide_eq_false in Hf. apply Hf. exists rid, r. auto.
Qed.

Lemma insert_user_fk s d d' :
  fk_user d -> insert_user s d = Some d' -> fk_user d'.
Proof.
  intros Hfk. unfold insert_user.
  destruct (Users.inserted s) as [r|]; simpl; [|discriminate].
  destruct (match Users.i_id s with
            | Some k => (k, users_id_seq d)
            | None => (users_id_seq d + 1, users_id_seq d + 1)
            end) as [k seq].
  destruct (users d !! k) eqn:Hk; [discriminate|].
  destruct (_ || _); [discriminate|]. intros [= <-].
  intros rid rq Hrq. simpl in *.
  destruct (Hfk rid rq Hrq) as [u Hu].
  by_key k (Requests.user_id rq); eauto.
Qed.

Lemma update_user_fk uid new_id s d d' :
  fk_user d -> update_user uid new_id s d = Some d' -> fk_user d'.
Proof.
  intros Hfk. unfold update_user.
  destruct (users d !! uid) as [OLD|] eqn:HOLD; [|intros [= <-]; exact Hfk].
  destruct (Users.updated s OLD) as [r|]; simpl; [|discriminate].
  destruct (_ || _); [discriminate|].
  case_bool_decide as Hk.
  - intros [= <-]. intros rid rq Hrq. simpl in *.
    destruct (Hfk rid rq Hrq) as [u Hu].
    by_key uid (Requests.user_id rq); eauto.
  - destruct (users d !! default uid new_id); [discriminate|].
    destruct (referenced (requests d) uid) eqn:Href; [discriminate|].
    intros [= <-]. intros rid rq Hrq. simpl in *.
    destruct (Hfk rid rq Hrq) as [u Hu].
    pose proof (referenced_false _ _ _ _ Href Hrq) as Hne.
    by_key (default uid new_id) (Requests.user_id rq); [eauto|].
    rewrite lookup_delete_ne by congruence. eauto.
Qed.

(** ON DELETE CASCADE: the user and exactly the user's requests go, in
    the one statement, and the constraint holds afterwards. *)
Lemma delete_user_cascades uid d :
  fk_user d ->
  ∃ d',
    delete_user uid d = Some d' ∧
    users d' !! uid = None ∧
    (∀ rid r, requests d' !! rid = Some r
              ↔ requests d !! rid = Some r ∧ Requests.user_id r ≠ uid) ∧
    (∀ u, u ≠ uid -> users d' !! u = users d !! u) ∧
    fk_user d'.
Proof.
  intros Hfk. unfold delete_user.
  destruct (users d !! uid) as [OLD|] eqn:HOLD.
  - eexists. split; [reflexivity|]. simpl.
    split; [apply lookup_delete_eq|]. split; [|split].
    + intros rid r. rewrite map_lookup_filter_Some. reflexivity.
    + intros u Hu. apply lookup_delete_ne. congruence.
    + intros rid r. simpl. rewrite map_lookup_filter_Some. simpl.
      intros [Hr Hne]. rewrite lookup_delete_ne by congruence.
      exact (Hfk rid r Hr).
  - exists d. split; [reflexivity|]. split; [exact HOLD|].
    split; [|split; [reflexivity | exact Hfk]].
    intros rid r. split; [|tauto]. intros Hr. split; [exact Hr|].
    intros Hu. destruct (Hfk rid r Hr) as [u Hus]. congruence.
Qed.

Lemma insert_request_fk now s d d' :
  fk_user d -> insert_request now s d = Some d' -> fk_user d'.
Proof.
  intros Hfk Hins.
  destruct (insert_request_Some _ _ _ _ Hins)
    as (k & r & _ & _ & Hu & Hreq & Hus).
  intros rid rq. rewrite Hreq, Hus.
  by_key k rid; [intros [= <-]; exact Hu | apply Hfk].
Qed.

Lemma update_request_fk rid new_id c d d' :
  fk_user d -> update_request rid new_id c d = Some d' -> fk_user d'.
Proof.
  intros Hfk Hupd.
  destruct (requests d !! rid) as [OLD|] eqn:HOLD.
  2:{ unfold update_request in Hupd. rewrite HOLD in Hupd.
      injection Hupd as <-. exact Hfk. }
  destruct (update_request_Some _ _ _ _ _ _ HOLD Hupd)
    as (Hus & _ & Hu & Hreq).
  assert (Hnew : is_Some (users d
                          !! Requests.user_id (Requests.assigned c OLD))).
  { destruct Hu as [Hn|Hu]; [|exact Hu].
    simpl. rewrite Hn. simpl. exact (Hfk rid OLD HOLD). }
  intros i rq. rewrite Hus.
  destruct Hreq as [[-> _]|[-> _]].
  - by_key rid i; [intros [= <-]; exact Hnew | apply Hfk].
  - by_key (default rid new_id) i; [intros [= <-]; exact Hnew|].
    intros Hd. apply lookup_delete_Some in Hd as [_ Hd].
    exact (Hfk i rq Hd).
Qed.

Lemma delete_request_fk rid d d' :
  fk_user d -> delete_request rid d = Some d' -> fk_user d'.
Proof.
  intros Hfk [= <-]. intros i rq. simpl.
  intros Hd. apply lookup_delete_Some in Hd as [_ Hd].
  exact (Hfk i rq Hd).
Qed.

(** Every accepted statement keeps the constraint. *)
Lemma exec_fk c d d' : fk_user d -> exec c d = Some d' -> fk_user d'.
Proof.
  intros Hfk. destruct c; cbn [exec].
  - apply insert_user_fk, Hfk.
  - apply update_user_fk, Hfk.
  - intros Hd. destruct (delete_user_cascades uid d Hfk)
      as (d0 & Hd0 & _ & _ & _ & Hfk0).
    rewrite Hd0 in Hd. injection Hd as <-. exact Hfk0.
  - apply insert_request_fk, Hfk.
  - apply update_request_fk, Hfk.
  - apply delete_request_fk, Hfk.
Qed.

Lemma run_fk cs : ∀ d d', fk_user d -> run cs d = Some d' -> fk_user d'.
Proof.
  induction cs as [|c cs IH]; intros d d' Hfk; simpl.
  - intros [= <-]. exact Hfk.
  - destruct (exec c d) as [d1|] eqn:Hc; simpl; [|discriminate].
    apply IH. exact (exec_fk c d d1 Hfk Hc).
Qed.

Lemma init_fk : fk_user init.
Proof.
  intros rid r Hr. simpl in Hr. rewrite lookup_empty in Hr. discriminate.
Qed.

(** C10. In every database reached from the initial one by accepted
    statements, the [user_id] of every request record is the key of an
    existing user: a request naming a user that does not exist is
    rejected.  Deleting a user always succeeds and removes, in the same
    statement, the user and exactly the request records of that user
    (ON DELETE CASCADE), leaving the other users and requests as they
    were; so no request record outlives its owning account. *)
Theorem request_never_outlives_its_user (cs : list stmt) (d : t) :
  run cs init = Some d ->
  fk_user d ∧
  (∀ now s r, Requests.inserted now s = Some r ->
     users d !! Requests.user_id r = None ->
     exec (InsertRequest now s) d = None) ∧
  (∀ uid, ∃ d',
     exec (DeleteUser uid) d = Some d' ∧
     users d' !! uid = None ∧
     (∀ rid r, requests d' !! rid = Some r
               ↔ requests d !! rid = Some r ∧ Requests.user_id r ≠ uid) ∧
     (∀ u, u ≠ uid -> users d' !! u = users d !! u) ∧
     fk_user d').
Proof.
  intros Hrun.
  assert (Hfk : fk_user d) by exact (run_fk cs init d init_fk Hrun).
  split; [exact Hfk|]. split.
  - intros now s r Hr Hu. simpl. unfold insert_request. rewrite Hr. simpl.
    destruct (match Requests.i_id s with
              | Some k => (k, requests_id_seq d)
              | None => (requests_id_seq d + 1, requests_id_seq d + 1)
              end) as [k seq].
    destruct (requests d !! k); [reflexivity|]. rewrite Hu. reflexivity.
  - intros uid. cbn [exec]. exact (delete_user_cascades uid d Hfk).
Qed.

End ForeignKey.

Section ForeignKeyWitness.

Import Db.

(** The test data of [init.sql]: a user, one request of that user, and
    the deletion of the user. *)
Lemma request_never_outlives_its_user_witness :
  ∃ d r d',
    run [InsertUser Sample.test_user; InsertRequest 0 Sample.image1] init
    = Some d ∧
    requests d !! 1 = Some r ∧ Requests.user_id r = 1 ∧
    exec (DeleteUser 1) d = Some d' ∧
    users d' !! 1 = None ∧ requests d' !! 1 = None.
Proof.
  destruct (request_never_outlives_its_user
              [InsertUser Sample.test_user; InsertRequest 0 Sample.image1]
              _ eq_refl)
    as (_ & _ & Hdel).
  destruct (Hdel 1) as (d' & Hex & Hu & Hreq & _).
  eexists _, _, d'. split; [reflexivity|]. split; [reflexivity|].
  split; [reflexivity|]. split; [exact Hex|]. split; [exact Hu|].
  destruct (requests d' !! 1) as [r|] eqn:Hr; [|reflexivity].
  apply Hreq in Hr as [Hr Hne]. exfalso. apply Hne.
  vm_compute in Hr. injection Hr as <-. reflexivity.
Defined.

End ForeignKeyWitness.

(** * Further properties of the schema *)

Section UniqueColumns.

Import Db.

Lemma username_free us self u k r :
  username_taken us self u = false -> us !! k = Some r -> Some k ≠ self ->
  Users.username r ≠ u.
Proof.
  unfold username_taken. intros Hf Hr Hk Hu.
  apply bool_decide_eq_false in Hf. apply Hf. exists k, r. auto.
Qed.

Lemma email_free us self e k r :
  email_taken us self e = false -> us !! k = Some r -> Some k ≠ self ->
  Users.email r ≠ e.
Proof.
  unfold email_taken. intros Hf Hr Hk Hu.
  apply bool_decide_eq_false in Hf. apply Hf. exists k, r. auto.
Qed.

(** A row enters under a free key with a value no row holds. *)
Lemma unique_on_insert {A} (f : Users.row -> A) us k r :
  us !! k = None -> (∀ i x, us !! i = Some x -> f x ≠ f r) ->
  Schema.unique_on f us -> Schema.unique_on f (<[k := r]> us).
Proof.
  intros Hk Hfree Hu i j ri rj Hi Hj Hf.
  destruct (decide (k = i)) as [Ei|Hki], (decide (k = j)) as [Ej|Hkj].
  - congruence.
  - subst i. rewrite lookup_insert_eq in Hi. injection Hi as <-.
    rewrite lookup_insert_ne in Hj by assumption.
    exfalso. exact (Hfree j rj Hj (eq_sym Hf)).
  - subst j. rewrite lookup_insert_eq in Hj. injection Hj as <-.
    rewrite lookup_insert_ne in Hi by assumption.
    exfalso. exact (Hfree i ri Hi Hf).
  - rewrite lookup_insert_ne in Hi, Hj by assumption.
    exact (Hu i j ri rj Hi Hj Hf).
Qed.

Lemma unique_on_delete {A} (f : Users.row -> A) us k :
  Schema.unique_on f us -> Schema.unique_on f (delete k us).
Proof.
  intros Hu i j ri rj Hi Hj.
  apply lookup_delete_Some in Hi as [_ Hi].
  apply lookup_delete_Some in Hj as [_ Hj].
  exact (Hu i j ri rj Hi Hj).
Qed.

(** A row is rewritten, possibly under a new free key: its value is the
    old one, or one no other row holds. *)
Lemma unique_on_update {A} (f : Users.row -> A) us uid k OLD r :
  us !! uid = Some OLD -> (k = uid ∨ us !! k = None) ->
  (f r = f OLD ∨ ∀ i x, us !! i = Some x -> i ≠ uid -> f x ≠ f r) ->
  Schema.unique_on f us ->
  Schema.unique_on f (<[k := r]> (delete uid us)).
Proof.
  intros HOLD Hk Hval Hu. apply unique_on_insert.
  - destruct Hk as [->|Hk]; [apply lookup_delete_eq|].
    rewrite lookup_delete_None. right. exact Hk.
  - intros i x Hi. apply lookup_delete_Some in Hi as [Hne Hi].
    destruct Hval as [Hsame|Hfree].
    + rewrite Hsame. intros Hf. apply Hne. symmetry.
      exact (Hu i uid x OLD Hi HOLD Hf).
    + apply (Hfree i x Hi). congruence.
  - apply unique_on_delete, Hu.
Qed.

Lemma updated_names s OLD r :
  Users.updated s OLD = Some r ->
  Users.username r
  = Sql.or_old_cut OLD (Users.username OLD) (Users.u_username s) ∧
  Users.email r = Sql.or_old_cut OLD (Users.email OLD) (Users.u_email s) ∧
  Users.password_hash r
  = Sql.or_old_cut OLD (Users.password_hash OLD) (Users.u_password_hash s).
Proof.
  unfold Users.updated. destruct (Users.fits s OLD); [|discriminate].
  intros [= <-]. destruct (Users.fires s); [|repeat split; reflexivity].
  destruct (trigger_frame (Users.assigned s OLD)) as (Hu & He & Hp & _).
  rewrite Hu, He, Hp. repeat split; reflexivity.
Qed.

Lemma insert_user_unique s d d' :
  insert_user s d = Some d' ->
  Schema.unique_on Users.username (users d) ->
  Schema.unique_on Users.email (users d) ->
  Schema.unique_on Users.username (users d') ∧
  Schema.unique_on Users.email (users d').
Proof.
  unfold insert_user.
  destruct (Users.inserted s) as [r|]; simpl; [|discriminate].
  destruct (match Users.i_id s with
            | Some k => (k, users_id_seq d)
            | None => (users_id_seq d + 1, users_id_seq d + 1)
            end) as [k seq].
  destruct (users d !! k) eqn:Hk; [discriminate|].
  destruct (username_taken _ _ _) eqn:Hu; [discriminate|].
  destruct (email_taken _ _ _) eqn:He; [discriminate|].
  intros [= <-] HU HE. simpl. split; apply unique_on_insert; try assumption.
  - intros i x Hi. exact (username_free _ _ _ _ _ Hu Hi ltac:(discriminate)).
  - intros i x Hi. exact (email_free _ _ _ _ _ He Hi ltac:(discriminate)).
Qed.

Lemma update_user_unique uid new_id s d d' :
  update_user uid new_id s d = Some d' ->
  Schema.unique_on Users.username (users d) ->
  Schema.unique_on Users.email (users d) ->
  Schema.unique_on Users.username (users d') ∧
  Schema.unique_on Users.email (users d').
Proof.
  unfold update_user.
  destruct (users d !! uid) as [OLD|] eqn:HOLD;
    [|intros [= <-]; split; assumption].
  destruct (Users.updated s OLD) as [r|] eqn:Hr; simpl; [|discriminate].
  destruct (updated_names _ _ _ Hr) as (Hn & He & _).
  destruct (is_Some_b (Users.u_username s)
            && username_taken (users d) (Some uid) (Users.username r))
    eqn:Hu; [discriminate|].
  destruct (is_Some_b (Users.u_email s)
            && email_taken (users d) (Some uid) (Users.email r))
    eqn:Hm; [discriminate|]. simpl.
  assert (HvalU : Users.username r = Users.username OLD ∨
                  ∀ i x, users d !! i = Some x -> i ≠ uid ->
                         Users.username x ≠ Users.username r).
  { destruct (Users.u_username s); simpl in *; [right | left; exact Hn].
    intros i x Hi Hne.
    exact (username_free _ _ _ _ _ Hu Hi ltac:(congruence)). }
  assert (HvalE : Users.email r = Users.email OLD ∨
                  ∀ i x, users d !! i = Some x -> i ≠ uid ->
                         Users.email x ≠ Users.email r).
  { destruct (Users.u_email s); simpl in *; [right | left; exact He].
    intros i x Hi Hne.
    exact (email_free _ _ _ _ _ Hm Hi ltac:(congruence)). }
  case_bool_decide as Hk.
  - intros [= <-] HU HE. simpl. rewrite <- insert_delete_eq.
    split; eapply unique_on_update; eauto.
  - destruct (users d !! default uid new_id) eqn:Hfree; [discriminate|].
    destruct (referenced (requests d) uid); [discriminate|].
    intros [= <-] HU HE. simpl.
    split; eapply unique_on_update; eauto.
Qed.

Lemma exec_unique c d d' :
  exec c d = Some d' ->
  Schema.unique_on Users.username (users d) ->
  Schema.unique_on Users.email (users d) ->
  Schema.unique_on Users.username (users d') ∧
  Schema.unique_on Users.email (users d').
Proof.
  destruct c; cbn [exec].
  - apply insert_user_unique.
  - apply update_user_unique.
  - unfold delete_user. destruct (users d !! uid).
    + intros [= <-] HU HE. simpl. split; apply unique_on_delete; assumption.
    + intros [= <-]. auto.
  - intros Hi. destruct (insert_request_Some _ _ _ _ Hi)
      as (k & r & _ & _ & _ & _ & ->). auto.
  - unfold update_request. destruct (requests d !! rid); [|intros [= <-]; auto].
    destruct (Requests.updated s r); simpl; [|discriminate].
    destruct (guard_fk _ _ _); [|discriminate].
    case_bool_decide.
    + intros [= <-]. auto.
    + destruct (requests d !! default rid new_id); [discriminate|].
      intros [= <-]. auto.
  - intros [= <-]. auto.
Qed.

(** X1. UNIQUE(username) and UNIQUE(email): in every database reached
    from the initial one by accepted statements, two users with the same
    username, or with the same email, are the same row. *)
Theorem usernames_and_emails_stay_unique (cs : list stmt) (d : t) :
  run cs init = Some d ->
  ∀ i j ri rj,
    users d !! i = Some ri -> users d !! j = Some rj ->
    Users.username ri = Users.username rj ∨ Users.email ri = Users.email rj ->
    i = j.
Proof.
  intros Hrun.
  assert (H : Schema.unique_on Users.username (users d) ∧
              Schema.unique_on Users.email (users d)).
  { revert Hrun.
    assert (H0 : Schema.unique_on Users.username (users init) ∧
                 Schema.unique_on Users.email (users init)).
    { split; intros i j ri rj Hi; simpl in Hi;
        rewrite lookup_empty in Hi; discriminate. }
    revert H0. generalize init. induction cs as [|c cs IH]; intros d0 H0.
    - intros [= <-]. exact H0.
    - simpl. destruct (exec c d0) as [d1|] eqn:Hc; simpl; [|discriminate].
      apply IH. destruct H0. eapply exec_unique; eauto. }
  destruct H as [HU HE]. intros i j ri rj Hi Hj [Hf|Hf].
  - exact (HU i j ri rj Hi Hj Hf).
  - exact (HE i j ri rj Hi Hj Hf).
Qed.

End UniqueColumns.

Section UniqueColumnsWitness.

Import Db.

(** The two users of the test data; a second [test_user] is rejected. *)
Lemma usernames_and_emails_stay_unique_witness :
  run [InsertUser Sample.test_user; InsertUser Sample.test_user] init = None
  ∧ ∃ d,
      run [InsertUser Sample.test_user; InsertUser Sample.admin] init = Some d
      ∧ ∀ i j ri rj,
          users d !! i = Some ri -> users d !! j = Some rj ->
          Users.username ri = Users.username rj
          ∨ Users.email ri = Users.email rj ->
          i = j.
Proof.
  split; [reflexivity|]. eexists. split; [reflexivity|].
  apply (usernames_and_emails_stay_unique
           [InsertUser Sample.test_user; InsertUser Sample.admin]).
  reflexivity.
Defined.

End UniqueColumnsWitness.

Section ColumnWidths.

Import Db.
























End ColumnWidths.

Section TriggerExtras.

Import Users.

Lemma rate_of_counts s t :
  0 < t ->
  ((0 <= Ledger.rate_of s t)%Q ↔ 0 <= s) ∧
  ((Ledger.rate_of s t <= 100 # 1)%Q ↔ s <= t).
Proof.
  intros Ht. unfold Ledger.rate_of. rewrite Qred_correct.
  destruct t as [|p|p]; try lia.
  unfold Qle, Qmult, Qdiv, Qinv, inject_Z; simpl. split; split; nia.
Qed.

(** X3. The trigger function is idempotent, and on a row with
    [total_proofs > 0] the rate it stores is a function of the two
    counters alone: whatever rate the row carried is overwritten, by NULL
    when [successful_proofs] is NULL. *)
Theorem trigger_is_idempotent_and_overwrites :
  (∀ NEW,
     update_user_success_rate (update_user_success_rate NEW)
     = update_user_success_rate NEW) ∧
  (∀ NEW t q, total_proofs NEW = Some t -> 0 < t ->
     update_user_success_rate (with_success_rate NEW q)
     = update_user_success_rate NEW) ∧
  (∀ NEW t, total_proofs NEW = Some t -> 0 < t ->
     successful_proofs NEW = None ->
     success_rate (update_user_success_rate NEW) = None).
Proof.
  split; [|split].
  - intros NEW. unfold update_user_success_rate at 2.
    destruct (Sql.is_true (Sql.gt (total_proofs NEW) (Some 0))) eqn:E.
    + unfold update_user_success_rate. simpl. rewrite E. reflexivity.
    + unfold update_user_success_rate. rewrite E. reflexivity.
  - intros NEW t q Ht Hpos.
    rewrite (trigger_recomputes NEW t Ht Hpos).
    rewrite (trigger_recomputes (with_success_rate NEW q) t Ht Hpos).
    reflexivity.
  - intros NEW t Ht Hpos Hs.
    rewrite (trigger_recomputes NEW t Ht Hpos). simpl. rewrite Hs.
    reflexivity.
Qed.

Lemma trigger_is_idempotent_and_overwrites_witness :
  update_user_success_rate (Sample.account 4 3 (10 # 1))
  = Sample.account 4 3 (75 # 1)
  ∧ update_user_success_rate (Sample.account 4 3 (99 # 1))
    = update_user_success_rate (Sample.account 4 3 (10 # 1)).
Proof.
  destruct trigger_is_idempotent_and_overwrites as (_ & Hover & _).
  split; [reflexivity|].
  exact (Hover (Sample.account 4 3 (10 # 1)) 4 (Some (99 # 1)%Q)
           eq_refl ltac:(lia)).
Defined.

(** X4. The trigger does not clamp.  After an UPDATE of the counters
    that leaves [total_proofs = t > 0] and
    [successful_proofs = s], the stored rate is at least 0 exactly when
    [s >= 0] and at most 100 exactly when [s <= t]: more successes than
    proofs store a rate above 100, a negative count a rate below 0. *)
Theorem stored_rate_in_range_iff_counts s t (c : update) (OLD NEW : row) :
  fires c = true -> updated c OLD = Some NEW ->
  successful_proofs NEW = Some s -> total_proofs NEW = Some t -> 0 < t ->
  ∃ q, success_rate NEW = Some q ∧
       ((0 <= q)%Q ↔ 0 <= s) ∧ ((q <= 100 # 1)%Q ↔ s <= t).
Proof.
  intros Hf Hu Hs Ht Hpos. exists (Ledger.rate_of s t). split.
  - revert Hu. unfold updated. destruct (fits c OLD); [|discriminate].
    rewrite Hf. intros [= <-].
    destruct (trigger_frame (assigned c OLD)) as (_ & _ & _ & _ & HT & HS).
    rewrite HT in Ht. rewrite HS in Hs.
    rewrite (trigger_recomputes _ t Ht Hpos).
    cbn [with_success_rate success_rate]. rewrite Hs. reflexivity.
  - apply rate_of_counts, Hpos.
Qed.

(** Five successes of four proofs: the rate stored is 125. *)
Lemma stored_rate_in_range_iff_counts_witness :
  ∃ q, success_rate (Sample.account 4 5 (125 # 1)) = Some q ∧
       ((0 <= q)%Q ↔ 0 <= 5) ∧ ((q <= 100 # 1)%Q ↔ 5 <= 4).
Proof.
  apply (stored_rate_in_range_iff_counts 5 4 (Sample.set_counters 4 5)
           (Sample.account 0 0 0) (Sample.account 4 5 (125 # 1)));
    try reflexivity; lia.
Defined.

End TriggerExtras.

Section Keys.

Import Db.

(** X5. A statement touches the rows it names and no other.  A request
    that is in the table before an accepted statement is in it unchanged
    afterwards, unless the statement is the UPDATE or DELETE of that
    request, or the DELETE of its user; a user row is there unchanged
    afterwards unless the statement is the UPDATE or DELETE of that
    user. *)
Theorem statements_touch_only_the_rows_they_name (c : stmt) (d d' : t) :
  exec c d = Some d' ->
  (∀ rid r, requests d !! rid = Some r ->
     requests d' !! rid = Some r
     ∨ (∃ k s, c = UpdateRequest rid k s) ∨ c = DeleteRequest rid
     ∨ c = DeleteUser (Requests.user_id r)) ∧
  (∀ uid u, users d !! uid = Some u ->
     users d' !! uid = Some u
     ∨ (∃ k s, c = UpdateUser uid k s) ∨ c = DeleteUser uid).
Proof.
  intros Hc. destruct c; cbn [exec] in Hc.
  - revert Hc. unfold insert_user.
    destruct (Users.inserted s) as [r|]; simpl; [|discriminate].
    destruct (match Users.i_id s with
              | Some k => (k, users_id_seq d)
              | None => (users_id_seq d + 1, users_id_seq d + 1)
              end) as [k seq].
    destruct (users d !! k) eqn:Hk; [discriminate|].
    destruct (_ || _); [discriminate|]. intros [= <-]. simpl.
    split; [auto|]. intros i u Hu. left.
    rewrite lookup_insert_ne by congruence. exact Hu.
  - revert Hc. unfold update_user.
    destruct (users d !! uid) as [OLD|] eqn:HOLD; [|intros [= <-]; auto].
    destruct (Users.updated s OLD) as [r|]; simpl; [|discriminate].
    destruct (_ || _); [discriminate|].
    case_bool_decide.
    + intros [= <-]. simpl. split; [auto|]. intros i u Hu.
      destruct (decide (i = uid)) as [->|Hne]; [right; left; eauto|].
      left. rewrite lookup_insert_ne by congruence. exact Hu.
    + destruct (users d !! default uid new_id) eqn:Hfree; [discriminate|].
      destruct (referenced (requests d) uid); [discriminate|].
      intros [= <-]. simpl. split; [auto|]. intros i u Hu.
      destruct (decide (i = uid)) as [->|Hne]; [right; left; eauto|].
      left. rewrite lookup_insert_ne by congruence.
      rewrite lookup_delete_ne by congruence. exact Hu.
  - revert Hc. unfold delete_user.
    destruct (users d !! uid) as [gone|] eqn:Hu; [|intros [= <-]; auto].
    intros [= <-]. simpl. split.
    + intros rid x Hx.
      destruct (decide (Requests.user_id x = uid)) as [<-|Hne]; [auto|].
      left. rewrite map_lookup_filter_Some. auto.
    + intros i u Hi. destruct (decide (i = uid)) as [->|Hne]; [auto|].
      left. rewrite lookup_delete_ne by congruence. exact Hi.
  - destruct (insert_request_Some _ _ _ _ Hc)
      as (k & r & _ & Hk & _ & -> & ->).
    split; [|auto]. intros rid x Hx. left.
    rewrite lookup_insert_ne by congruence. exact Hx.
  - destruct (requests d !! rid) as [OLD|] eqn:HOLD.
    2:{ unfold update_request in Hc. rewrite HOLD in Hc.
        injection Hc as <-. auto. }
    revert Hc. unfold update_request. rewrite HOLD.
    destruct (Requests.updated s OLD) as [r|]; simpl; [|discriminate].
    destruct (guard_fk _ _ _); [|discriminate].
    case_bool_decide.
    + intros [= <-]. simpl. split; [|auto]. intros i x Hx.
      destruct (decide (i = rid)) as [->|Hne]; [right; left; eauto|].
      left. rewrite lookup_insert_ne by congruence. exact Hx.
    + destruct (requests d !! default rid new_id) eqn:Hfree; [discriminate|].
      intros [= <-]. simpl. split; [|auto]. intros i x Hx.
      destruct (decide (i = rid)) as [->|Hne]; [right; left; eauto|].
      left. rewrite lookup_insert_ne by congruence.
      rewrite lookup_delete_ne by congruence. exact Hx.
  - injection Hc as <-. simpl. split; [|auto]. intros i x Hx.
    destruct (decide (i = rid)) as [->|Hne]; [auto|].
    left. rewrite lookup_delete_ne by congruence. exact Hx.
Qed.

(** A request of [test_user] is recorded: the user's row is as before. *)
Lemma statements_touch_only_the_rows_they_name_witness :
  ∃ d',
    exec (InsertRequest 0 Sample.image1)
      (Sample.one_user (Sample.account 0 0 0)) = Some d'
    ∧ users d' !! 1 = Some (Sample.account 0 0 0).
Proof.
  destruct (exec (InsertRequest 0 Sample.image1)
              (Sample.one_user (Sample.account 0 0 0))) as [d'|] eqn:E;
    [|vm_compute in E; discriminate E].
  exists d'. split; [reflexivity|].
  destruct (proj2 (statements_touch_only_the_rows_they_name _ _ _ E)
              1 (Sample.account 0 0 0) eq_refl)
    as [H|[(k & s & H)|H]]; [exact H | discriminate | discriminate].
Defined.





(** A session in which nothing is rejected is a script. *)
Lemma play_run cs :
  ∀ d d' flags, run cs d = Some d' -> length flags = length cs ->
                play (zip cs flags) d = d'.
Proof.
  induction cs as [|c cs IH]; intros d d' flags Hrun Hlen.
  - injection Hrun as <-. reflexivity.
  - destruct flags as [|b flags]; [discriminate|]. simpl in Hrun.
    destruct (exec c d) as [d1|] eqn:Hx; simpl in Hrun; [|discriminate].
    simpl. unfold step. rewrite Hx. apply IH; [exact Hrun|].
    simpl in Hlen. lia.
Qed.



End Keys.

Section KeyMoves.

Import Db.





(** X8. Insert and delete are inverse on the tables.  Deleting the
    request an INSERT has just created gives back the [requests] table as
    it was; and, in a database that satisfies [fk_user], deleting the
    user an INSERT has just created gives back both tables: the cascade
    finds no request to remove. *)
Theorem insert_then_delete_restores_tables (d : t) :
  (∀ now s d1, exec (InsertRequest now s) d = Some d1 ->
     ∃ k r d2,
       requests d !! k = None ∧ requests d1 !! k = Some r ∧
       exec (DeleteRequest k) d1 = Some d2 ∧
       requests d2 = requests d ∧ users d2 = users d) ∧
  (∀ s d1, fk_user d -> exec (InsertUser s) d = Some d1 ->
     ∃ k r d2,
       users d !! k = None ∧ users d1 !! k = Some r ∧
       exec (DeleteUser k) d1 = Some d2 ∧
       users d2 = users d ∧ requests d2 = requests d).
Proof.
  split.
  - intros now s d1 Hi. cbn [exec] in Hi.
    destruct (insert_request_Some _ _ _ _ Hi)
      as (k & r & _ & Hk & _ & Hreq & Hus).
    exists k, r. eexists. split; [exact Hk|]. split.
    { rewrite Hreq. apply lookup_insert_eq. }
    split; [reflexivity|]. simpl. rewrite Hreq.
    split; [apply delete_insert_id, Hk | exact Hus].
  - intros s d1 Hfk Hi. cbn [exec] in Hi. revert Hi. unfold insert_user.
    destruct (Users.inserted s) as [r|]; simpl; [|discriminate].
    destruct (match Users.i_id s with
              | Some k => (k, users_id_seq d)
              | None => (users_id_seq d + 1, users_id_seq d + 1)
              end) as [k seq].
    destruct (users d !! k) eqn:Hk; [discriminate|].
    destruct (_ || _); [discriminate|]. intros [= <-].
    exists k, r. eexists. split; [exact Hk|]. simpl.
    split; [apply lookup_insert_eq|].
    unfold delete_user. simpl. rewrite lookup_insert_eq.
    split; [reflexivity|]. simpl. split; [apply delete_insert_id, Hk|].
    apply map_filter_id. intros i x Hx. simpl. intros Hu.
    destruct (Hfk i x Hx) as [u Hxu]. congruence.
Qed.

Lemma insert_then_delete_restores_tables_witness :
  ∃ d1 d2,
    exec (InsertRequest 0 Sample.image1)
      (Sample.one_user (Sample.account 0 0 0)) = Some d1
    ∧ exec (DeleteRequest 1) d1 = Some d2
    ∧ requests d2 = ∅.
Proof.
  destruct (proj1 (insert_then_delete_restores_tables
                     (Sample.one_user (Sample.account 0 0 0)))
              0 Sample.image1 _ eq_refl)
    as (k & r & d2 & Hk & Hr & Hd & Hreq & _).
  eexists _, _. split; [reflexivity|]. split; reflexivity.
Defined.

End KeyMoves.

(** * Properties of the frontend *)

Section Session.

Import Web.

Lemma token_of_spec ls :
  token_of ls
  = match ls !! "token" with
    | Some t => if bool_decide (t = "") then None else Some t
    | None => None
    end.
Proof.
  unfold token_of, getItem. destruct (ls !! "token") as [t|]; [|reflexivity].
  simpl. destruct (bool_decide (t = "")); reflexivity.
Qed.

(** X9. [PrivateRoute] over [useAuth]: the first render is the loading
    screen, never a redirect; the render after the mount effect shows the
    children exactly when [localStorage] holds a non-empty [token], and
    redirects to [/login] otherwise. *)
Theorem private_route_admits_only_with_token (ls : gmap string string) :
  ∃ v,
    PrivateRoute_renders ls = [LoadingScreen; v] ∧
    (v = Children ↔ ∃ t, ls !! "token" = Some t ∧ t ≠ "") ∧
    (v ≠ Children -> v = Navigate "/login").
Proof.
  unfold PrivateRoute_renders, PrivateRoute, useAuth_effect, getItem. simpl.
  destruct (ls !! "token") as [t|] eqn:Ht; simpl.
  - case_bool_decide as E; simpl.
    + eexists. split; [reflexivity|]. split; [|reflexivity].
      split; [discriminate|]. intros (t' & [= <-] & Hne). contradiction.
    + eexists. split; [reflexivity|]. split; [|contradiction].
      split; [eauto | reflexivity].
  - eexists. split; [reflexivity|]. split; [|reflexivity].
    split; [discriminate|]. intros (t' & Hn & _). discriminate.
Qed.

(** X10. [Login.handleSubmit] on a 2xx answer whose data is an object:
    one request is sent, [String(access_token)] is stored as the token,
    no toast is shown and the page moves to [/dashboard].  A
    [PrivateRoute] mounted afterwards admits the user unless that string
    is empty; an answer without [access_token] stores ["undefined"] and
    is admitted. *)
Theorem login_stores_the_token_it_is_given
    (srv : call -> outcome login_data) (st : login_state)
    (ls : gmap string string) (r : reply login_data) (tok : js) :
  srv (loginUser_call ls (l_credentials st)) = Reply r ->
  200 <= status r < 300 -> data r = Object tok ->
  ∃ st' e,
    Login_handleSubmit srv st ls = (st', e) ∧
    storage e = <["token" := to_string tok]> ls ∧
    navigations e = ["/dashboard"] ∧ toasts e = [] ∧
    sent e = [loginUser_call ls (l_credentials st)] ∧
    l_isLoading st' = false ∧ isAuthenticated (l_auth st') = true ∧
    l_credentials st' = l_credentials st ∧
    (PrivateRoute_renders (storage e) = [LoadingScreen; Children]
     ↔ to_string tok ≠ "") ∧
    (tok = Undefined ->
     PrivateRoute_renders (storage e) = [LoadingScreen; Children]).
Proof.
  intros Hsrv Hst Hd. unfold Login_handleSubmit, axios. rewrite Hsrv.
  replace ((200 <=? status r) && (status r <? 300)) with true
    by (symmetry; apply andb_true_intro; split;
        [apply Z.leb_le | apply Z.ltb_lt]; lia).
  rewrite Hd. eexists _, _. split; [reflexivity|].
  cbn [storage navigations toasts sent l_isLoading l_auth isAuthenticated
       l_credentials].
  do 7 (split; [reflexivity|]).
  assert (Hr : PrivateRoute_renders (setItem "token" tok ls)
               = [LoadingScreen;
                  if bool_decide (to_string tok = "")
                  then Navigate "/login" else Children]).
  { unfold PrivateRoute_renders, PrivateRoute, useAuth_effect, getItem,
      setItem. rewrite lookup_insert_eq. simpl.
    destruct (bool_decide (to_string tok = "")); reflexivity. }
  split.
  - rewrite Hr. case_bool_decide as E; split;
      first [congruence | intros _; reflexivity].
  - intros ->. rewrite Hr. reflexivity.
Qed.

(** An answer [200 {}]: the token stored is ["undefined"]. *)
Lemma login_stores_the_token_it_is_given_witness :
  ∃ st' e,
    Login_handleSubmit
      (λ _, Reply {| status := 200; detail := Undefined;
                     data := Object Undefined |})
      {| l_credentials := {| username := "test_user"; password := "x" |};
         l_isLoading := false; l_auth := useAuth_initial |} ∅
    = (st', e) ∧
    storage e = {[ "token" := "undefined" ]} ∧
    PrivateRoute_renders (storage e) = [LoadingScreen; Children].
Proof.
  destruct (login_stores_the_token_it_is_given
              (λ _, Reply {| status := 200; detail := Undefined;
                             data := Object Undefined |})
              {| l_credentials :=
                   {| username := "test_user"; password := "x" |};
                 l_isLoading := false; l_auth := useAuth_initial |} ∅
              {| status := 200; detail := Undefined;
                 data := Object Undefined |} Undefined
              eq_refl ltac:(simpl; lia) eq_refl)
    as (st' & e & Hh & Hs & _ & _ & _ & _ & _ & _ & _ & Hadm).
  exists st', e. split; [exact Hh|]. split; [exact Hs|].
  exact (Hadm eq_refl).
Defined.

(** X11. [Dashboard.handleLogout]: the token is removed and nothing else
    of [localStorage], no request is sent, the page moves to [/login],
    and every [PrivateRoute] mounted afterwards redirects to [/login],
    whatever was stored before. *)
Theorem logout_locks_the_private_routes (ls : gmap string string) :
  storage (Dashboard_handleLogout ls) !! "token" = None ∧
  (∀ k, k ≠ "token" ->
     storage (Dashboard_handleLogout ls) !! k = ls !! k) ∧
  sent (Dashboard_handleLogout ls) = [] ∧
  navigations (Dashboard_handleLogout ls) = ["/login"] ∧
  PrivateRoute_renders (storage (Dashboard_handleLogout ls))
  = [LoadingScreen; Navigate "/login"] ∧
  token_of (storage (Dashboard_handleLogout ls)) = None.
Proof.
  unfold Dashboard_handleLogout, removeItem. simpl.
  split; [apply lookup_delete_eq|]. split.
  { intros k Hk. apply lookup_delete_ne. congruence. }
  split; [reflexivity|]. split; [reflexivity|]. split.
  - unfold PrivateRoute_renders, PrivateRoute, useAuth_effect, getItem.
    rewrite lookup_delete_eq. reflexivity.
  - rewrite token_of_spec, lookup_delete_eq. reflexivity.
Qed.

End Session.

Section Handlers.

Import Web.

Lemma failure_toast_shows {D} (e : thrown D) (fallback : string) :
  fallback ≠ "" ->
  ∃ m, failure_toast e fallback = ToastError m ∧ truthy m = true ∧
       match e with
       | Some r => if truthy (detail r) then m = detail r
                   else m = Str fallback
       | None => m = Str fallback
       end.
Proof.
  intros Hf. unfold failure_toast, or_else.
  assert (Ht : truthy (Str fallback) = true).
  { simpl. rewrite bool_decide_eq_false_2 by exact Hf. reflexivity. }
  destruct e as [r|].
  - destruct (truthy (detail r)) eqn:E.
    + exists (detail r). split; [reflexivity|]. split; [exact E|reflexivity].
    + exists (Str fallback). split; [reflexivity|]. split; [exact Ht|reflexivity].
  - exists (Str fallback). split; [reflexivity|]. split; [exact Ht|reflexivity].
Qed.

Lemma failed_quietly_intro {D} ls c (e : thrown D) fallback n :
  fallback ≠ "" ->
  failed_quietly ls c e fallback
    {| storage := ls; toasts := [failure_toast e fallback];
       navigations := []; sent := [c]; console_errors := n |}.
Proof.
  intros Hf. unfold failed_quietly. cbn [storage navigations sent toasts].
  do 3 (split; [reflexivity|]).
  destruct (failure_toast_shows e fallback Hf) as (m & Hm & Ht & He).
  exists m. rewrite Hm. split; [reflexivity|]. split; assumption.
Qed.

(** X12. A request that fails (no response, or a status outside 2xx)
    never changes [localStorage] and never navigates: [Login],
    [Register], [ProofSettings] and [ImageUpload] each send the one
    request and show exactly one error toast.  The message of the toast
    is the [detail] of the response when there is a response and its
    [detail] is truthy; otherwise it is the handler's own text, which is
    [Login failed], [Registration failed], [Failed to update settings]
    and [Failed to process image].  Each handler ends with its loading
    flag false and keeps the rest of its state. *)
Theorem failed_requests_only_show_a_toast (ls : gmap string string) :
  (∀ srv st e,
     axios srv (loginUser_call ls (l_credentials st)) = inl e ->
     failed_quietly ls (loginUser_call ls (l_credentials st))
       e "Login failed" (Login_handleSubmit srv st ls).2 ∧
     (Login_handleSubmit srv st ls).1
     = {| l_credentials := l_credentials st; l_isLoading := false;
          l_auth := l_auth st |}) ∧
  (∀ srv st e,
     axios srv (registerUser_call ls (r_userData st)) = inl e ->
     failed_quietly ls (registerUser_call ls (r_userData st))
       e "Registration failed" (Register_handleSubmit srv st ls).2 ∧
     (Register_handleSubmit srv st ls).1
     = {| r_userData := r_userData st; r_isLoading := false |}) ∧
  (∀ srv st e,
     axios srv (updateProofSettings_call ls (proofThreshold st)) = inl e ->
     failed_quietly ls (updateProofSettings_call ls (proofThreshold st))
       e "Failed to update settings"
       (ProofSettings_handleSubmit srv st ls).2 ∧
     (ProofSettings_handleSubmit srv st ls).1
     = {| proofThreshold := proofThreshold st; s_isLoading := false |}) ∧
  (∀ (D : Type) (srv : call -> outcome D) st f e,
     file st = Some f ->
     axios srv (processImage_call ls f (modelType st)) = inl e ->
     failed_quietly ls (processImage_call ls f (modelType st))
       e "Failed to process image" (ImageUpload_handleSubmit srv st ls).2 ∧
     (ImageUpload_handleSubmit srv st ls).1
     = {| file := Some f; modelType := modelType st; loading := false;
          result := result st |}).
Proof.
  split; [|split; [|split]].
  - intros srv st e He. unfold Login_handleSubmit. rewrite He.
    split; [|reflexivity]. cbn [snd].
    apply failed_quietly_intro. discriminate.
  - intros srv st e He. unfold Register_handleSubmit. rewrite He.
    split; [|reflexivity]. cbn [snd].
    apply failed_quietly_intro. discriminate.
  - intros srv st e He. unfold ProofSettings_handleSubmit. rewrite He.
    split; [|reflexivity]. cbn [snd].
    apply failed_quietly_intro. discriminate.
  - intros D srv st f e Hf He. unfold ImageUpload_handleSubmit.
    rewrite Hf, He.
    split; [|reflexivity]. cbn [snd].
    apply failed_quietly_intro. discriminate.
Qed.

(** A login refused with 401 and a [detail] shows that [detail]; a login
    that gets no answer shows [Login failed]. *)
Lemma failed_requests_only_show_a_toast_witness :
  (Login_handleSubmit
     (λ _, Reply {| status := 401;
                    detail := Str "Incorrect username or password";
                    data := NoObject |})
     {| l_credentials := {| username := "test_user"; password := "x" |};
        l_isLoading := false; l_auth := useAuth_initial |}
     {[ "theme" := "dark" ]}).2
  = {| storage := {[ "theme" := "dark" ]};
       toasts := [ToastError (Str "Incorrect username or password")];
       navigations := [];
       sent := [loginUser_call {[ "theme" := "dark" ]}
                  {| username := "test_user"; password := "x" |}];
       console_errors := 0 |}
  ∧ failed_quietly {[ "theme" := "dark" ]}
      (loginUser_call {[ "theme" := "dark" ]}
         {| username := "test_user"; password := "x" |})
      (Some {| status := 401;
               detail := Str "Incorrect username or password";
               data := NoObject |})
      "Login failed"
      (Login_handleSubmit
         (λ _, Reply {| status := 401;
                        detail := Str "Incorrect username or password";
                        data := NoObject |})
         {| l_credentials := {| username := "test_user"; password := "x" |};
            l_isLoading := false; l_auth := useAuth_initial |}
         {[ "theme" := "dark" ]}).2
  ∧ failed_quietly {[ "theme" := "dark" ]}
      (loginUser_call {[ "theme" := "dark" ]}
         {| username := "test_user"; password := "x" |})
      (None : thrown login_data)
      "Login failed"
      (Login_handleSubmit (λ _, NoResponse)
         {| l_credentials := {| username := "test_user"; password := "x" |};
            l_isLoading := false; l_auth := useAuth_initial |}
         {[ "theme" := "dark" ]}).2.
Proof.
  split; [reflexivity|]. split.
  - eapply (proj1 (failed_requests_only_show_a_toast {[ "theme" := "dark" ]})).
    reflexivity.
  - eapply (proj1 (failed_requests_only_show_a_toast {[ "theme" := "dark" ]})).
    reflexivity.
Defined.

Lemma through_bearer ls method path :
  Api.authorization (through ls method path) = bearer ls.
Proof.
  unfold through, bearer, Api.interceptor. simpl. rewrite token_of_spec.
  destruct (ls !! "token") as [t|]; [|reflexivity].
  destruct (bool_decide (t = "")); reflexivity.
Qed.

(** X13. The request interceptor covers every call.  Whatever the
    server answers, each request a handler sends ([Login], [Register],
    [ProofSettings], [ImageUpload], [ProofStats]) carries
    [Authorization: Bearer <token>] exactly when [localStorage] holds a
    non-empty token at that moment, and no Authorization header
    otherwise; the login request itself carries a token left from an
    earlier session. *)
Theorem every_request_carries_the_stored_token (ls : gmap string string) :
  (∀ srv st,
     Forall (λ c, Api.authorization (request c) = bearer ls)
       (sent (Login_handleSubmit srv st ls).2)) ∧
  (∀ srv st,
     Forall (λ c, Api.authorization (request c) = bearer ls)
       (sent (Register_handleSubmit srv st ls).2)) ∧
  (∀ srv st,
     Forall (λ c, Api.authorization (request c) = bearer ls)
       (sent (ProofSettings_handleSubmit srv st ls).2)) ∧
  (∀ (D : Type) (srv : call -> outcome D) st,
     Forall (λ c, Api.authorization (request c) = bearer ls)
       (sent (ImageUpload_handleSubmit srv st ls).2)) ∧
  (∀ (D : Type) (srv : call -> outcome D) st,
     Forall (λ c, Api.authorization (request c) = bearer ls)
       (sent (ProofStats_fetchStats srv st ls).2)).
Proof.
  split; [|split; [|split; [|split]]].
  - intros srv st. unfold Login_handleSubmit.
    destruct (axios srv _) as [e|[|tok]]; simpl;
      repeat constructor; apply through_bearer.
  - intros srv st. unfold Register_handleSubmit.
    destruct (axios srv _) as [e|[]]; simpl;
      repeat constructor; apply through_bearer.
  - intros srv st. unfold ProofSettings_handleSubmit.
    destruct (axios srv _) as [e|[]]; simpl;
      repeat constructor; apply through_bearer.
  - intros D srv st. unfold ImageUpload_handleSubmit.
    destruct (file st) as [f|]; [|constructor].
    destruct (axios srv _) as [e|x]; simpl;
      repeat constructor; apply through_bearer.
  - intros D srv st. unfold ProofStats_fetchStats.
    destruct (axios srv _) as [e|x]; simpl;
      repeat constructor; apply through_bearer.
Qed.

(** X14. [ImageUpload.handleSubmit].  Without a selected file nothing
    is sent and the state is untouched: only the toast "Please select an
    image" appears.  With a file, exactly one multipart request goes out,
    carrying the file and the selected [model_type]; on a 2xx answer the
    result becomes the data received, on a failure the result shown
    before stays. *)
Theorem upload_needs_a_file_and_keeps_old_results {D : Type}
    (srv : call -> outcome D) (st : upload_state D)
    (ls : gmap string string) :
  (file st = None ->
     ImageUpload_handleSubmit srv st ls
     = (st, {| storage := ls;
               toasts := [ToastError (Str "Please select an image")];
               navigations := []; sent := []; console_errors := 0 |})) ∧
  (∀ f, file st = Some f ->
     sent (ImageUpload_handleSubmit srv st ls).2
     = [processImage_call ls f (modelType st)] ∧
     body (processImage_call ls f (modelType st))
     = Multipart [("image", File f); ("model_type", Text (modelType st))] ∧
     loading (ImageUpload_handleSubmit srv st ls).1 = false ∧
     file (ImageUpload_handleSubmit srv st ls).1 = Some f ∧
     modelType (ImageUpload_handleSubmit srv st ls).1 = modelType st ∧
     result (ImageUpload_handleSubmit srv st ls).1
     = match axios srv (processImage_call ls f (modelType st)) with
       | inr x => Some x
       | inl _ => result st
       end).
Proof.
  unfold ImageUpload_handleSubmit. split.
  - intros ->. reflexivity.
  - intros f ->.
    destruct (axios srv _) as [e|x]; simpl; repeat split; reflexivity.
Qed.

Lemma upload_needs_a_file_and_keeps_old_results_witness :
  sent (ImageUpload_handleSubmit
          (λ _, Reply {| status := 200; detail := Undefined; data := 7 |})
          ImageUpload_initial ∅).2 = []
  ∧ result (ImageUpload_handleSubmit (λ _, NoResponse)
              {| file := Some "cat.jpg"; modelType := "resnet34";
                 loading := false; result := Some 7 |} ∅).1 = Some 7.
Proof.
  split.
  - rewrite (proj1 (upload_needs_a_file_and_keeps_old_results
                      (λ _, Reply {| status := 200; detail := Undefined;
                                     data := 7 |})
                      ImageUpload_initial ∅) eq_refl).
    reflexivity.
  - rewrite (proj2 (proj2 (proj2 (proj2 (proj2
               (proj2 (upload_needs_a_file_and_keeps_old_results
                         (λ _, NoResponse)
                         {| file := Some "cat.jpg"; modelType := "resnet34";
                            loading := false; result := Some 7 |} ∅)
                  "cat.jpg" eq_refl)))))).
    reflexivity.
Defined.

Lemma refreshes_snoc {D} (answers : list (call -> outcome D)) srv :
  ∀ st ls,
    ProofStats_refreshes (answers ++ [srv]) st ls
    = (ProofStats_fetchStats srv (ProofStats_refreshes answers st ls) ls).1.
Proof.
  induction answers as [|a rest IH]; intros st ls; simpl; [reflexivity|].
  apply IH.
Qed.

(** X15. [ProofStats]: after the first fetch the component is no longer
    loading, whatever the server answered.  A refresh that resolves
    replaces the stats by the data received; a refresh that fails keeps
    the stats shown before, so stats once shown are never blanked by
    later failures. *)
Theorem stats_refresh_keeps_the_last_good_answer {D : Type}
    (answers : list (call -> outcome D)) (srv : call -> outcome D)
    (st : stats_state D) (ls : gmap string string) :
  st_loading (ProofStats_refreshes (answers ++ [srv]) st ls) = false ∧
  stats (ProofStats_refreshes (answers ++ [srv]) st ls)
  = match axios srv (getProofStats_call ls) with
    | inr x => Some x
    | inl _ => stats (ProofStats_refreshes answers st ls)
    end ∧
  (is_Some (stats st) ->
   is_Some (stats (ProofStats_refreshes (answers ++ [srv]) st ls))).
Proof.
  split; [|split].
  - rewrite refreshes_snoc. unfold ProofStats_fetchStats.
    destruct (axios srv _); reflexivity.
  - rewrite refreshes_snoc. unfold ProofStats_fetchStats.
    destruct (axios srv _); reflexivity.
  - generalize (answers ++ [srv]). intros l. revert st.
    induction l as [|a rest IH]; intros st Hs; simpl; [exact Hs|].
    apply IH. unfold ProofStats_fetchStats.
    destruct (axios a _); simpl; [exact Hs | eauto].
Qed.

Lemma stats_refresh_keeps_the_last_good_answer_witness :
  stats (ProofStats_refreshes
           [(λ _, Reply {| status := 200; detail := Undefined; data := 3 |});
            (λ _, Reply {| status := 500; detail := Undefined; data := 0 |});
            (λ _, NoResponse)]
           ProofStats_initial ∅) = Some 3.
Proof.
  destruct (proj2 (proj2 (stats_refresh_keeps_the_last_good_answer
              [(λ _, Reply {| status := 200; detail := Undefined;
                              data := 3 |});
               (λ _, Reply {| status := 500; detail := Undefined;
                              data := 0 |})]
              (λ _, NoResponse)
              {| stats := Some 3; st_loading := false |} ∅))
              ltac:(eauto)) as [x Hx].
  reflexivity.
Defined.

End Handlers.

Section ThresholdUrl.

Import Web.

Lemma pretty_N_go_ne_NaN x s : s ≠ "NaN" -> pretty_N_go x s ≠ "NaN".
Proof.
  revert s. induction (N.lt_wf_0 x) as [x _ IH]; intros s Hs.
  assert (x = 0 ∨ 0 < x)%N as [->|Hx] by lia.
  - rewrite pretty_N_go_0. exact Hs.
  - rewrite pretty_N_go_step by exact Hx. apply IH.
    { apply N.div_lt; [exact Hx | reflexivity]. }
    unfold pretty_N_char. repeat case_match; discriminate.
Qed.

Lemma pretty_Z_ne_NaN (z : Z) : pretty z ≠ "NaN".
Proof.
  destruct z as [|p|p]; unfold pretty, pretty_Z; [discriminate| |].
  - unfold pretty, pretty_positive, pretty, pretty_N.
    destruct (decide (N.pos p = 0%N)); [discriminate|].
    apply pretty_N_go_ne_NaN. discriminate.
  - discriminate.
Qed.

Lemma append_cancel (p a b : string) : p +:+ a = p +:+ b -> a = b.
Proof.
  induction p as [|c p IH]; simpl; [auto|]. intros [= H]. exact (IH H).
Qed.

Lemma template_inj n m : Api.template n = Api.template m -> n = m.
Proof.
  destruct n as [x|], m as [y|]; simpl; intros H.
  - f_equal. exact (pretty_Z_inj x y H).
  - exfalso. exact (pretty_Z_ne_NaN x H).
  - exfalso. exact (pretty_Z_ne_NaN y (eq_sym H)).
  - reflexivity.
Qed.

(** X16. Among the safe numbers (NaN and the integers up to
    [Number.MAX_SAFE_INTEGER] in absolute value, the sign of zero set
    aside), the URL of [updateProofSettings] determines the value the
    form held: two calls with the same URL were made with the same
    threshold, and the URL of a NaN (a cleared field) is the URL of no
    integer.  The request [Api.updateProofSettings] posts has that same
    URL. *)
Theorem settings_url_determines_the_threshold
    (ls ls' : gmap string string) (n m : Api.js_number) :
  Api.safe n = true -> Api.safe m = true ->
  (Api.url (request (updateProofSettings_call ls n))
   = Api.url (request (updateProofSettings_call ls' m)) -> n = m) ∧
  (∀ z, m = Api.Num z ->
     Api.url (request (updateProofSettings_call ls Api.NaN))
     ≠ Api.url (request (updateProofSettings_call ls' m))) ∧
  (∀ post,
     Api.updateProofSettings (token_of ls) post n
     = (let r := post (request (updateProofSettings_call ls n)) in
        if (200 <=? Api.status r) && (Api.status r <? 300)
        then inr (Api.data r) else inl r)).
Proof.
  intros _ _.
  assert (Hinj : ∀ l l' a b,
            Api.url (request (updateProofSettings_call l a))
            = Api.url (request (updateProofSettings_call l' b)) -> a = b).
  { intros l l' a b. unfold updateProofSettings_call, through. simpl.
    intros H. apply template_inj.
    apply (append_cancel "/settings?proof_threshold=").
    apply (append_cancel Api.API_URL). exact H. }
  split; [apply Hinj|]. split; [|reflexivity].
  intros z -> H. apply Hinj in H. discriminate H.
Qed.

Lemma settings_url_determines_the_threshold_witness :
  Api.url (request (updateProofSettings_call ∅ (Api.Num 5)))
  = "http://localhost:8000/api/settings?proof_threshold=5"
  ∧ Api.url (request (updateProofSettings_call ∅ Api.NaN))
    = "http://localhost:8000/api/settings?proof_threshold=NaN"
  ∧ Api.Num 5 = Api.Num 5.
Proof.
  split; [reflexivity|]. split; [reflexivity|].
  exact (proj1 (settings_url_determines_the_threshold ∅ ∅
                  (Api.Num 5) (Api.Num 5) eq_refl eq_refl) eq_refl).
Defined.

End ThresholdUrl.

Section StorageWrites.

Import Web.

(** X17. [Login.handleSubmit] writes the token and moves to
    [/dashboard] together or not at all: both happen exactly when the
    server answers 2xx with an object, and then the token written is
    [String(access_token)]; in every other case (no response, another
    status, a [null] body) the storage is as before, nothing is navigated
    to and an error toast is shown.  Exactly one request is sent in every
    case. *)
Theorem login_writes_token_and_navigates_together
    (srv : call -> outcome login_data) (st : login_state)
    (ls : gmap string string) :
  sent (Login_handleSubmit srv st ls).2
  = [loginUser_call ls (l_credentials st)] ∧
  l_isLoading (Login_handleSubmit srv st ls).1 = false ∧
  ((∃ r tok,
      srv (loginUser_call ls (l_credentials st)) = Reply r ∧
      200 <= status r < 300 ∧ data r = Object tok ∧
      storage (Login_handleSubmit srv st ls).2 = setItem "token" tok ls ∧
      navigations (Login_handleSubmit srv st ls).2 = ["/dashboard"] ∧
      toasts (Login_handleSubmit srv st ls).2 = [])
   ∨ (storage (Login_handleSubmit srv st ls).2 = ls ∧
      navigations (Login_handleSubmit srv st ls).2 = [] ∧
      (∃ m, toasts (Login_handleSubmit srv st ls).2 = [ToastError m]) ∧
      l_auth (Login_handleSubmit srv st ls).1 = l_auth st ∧
      ¬ ∃ r tok,
          srv (loginUser_call ls (l_credentials st)) = Reply r ∧
          200 <= status r < 300 ∧ data r = Object tok)).
Proof.
  unfold Login_handleSubmit, axios.
  destruct (srv (loginUser_call ls (l_credentials st))) as [|r] eqn:Hs.
  - simpl. split; [reflexivity|]. split; [reflexivity|]. right.
    repeat split; eauto. intros (r & tok & Hr & _). discriminate.
  - destruct ((200 <=? status r) && (status r <? 300)) eqn:E.
    + apply andb_prop in E as [E1 E2].
      apply Z.leb_le in E1. apply Z.ltb_lt in E2.
      destruct (data r) as [|tok] eqn:Hd; simpl.
      * split; [reflexivity|]. split; [reflexivity|]. right.
        repeat split; eauto.
        intros (r' & tok & [= <-] & _ & Hd'). congruence.
      * split; [reflexivity|]. split; [reflexivity|]. left.
        exists r, tok. repeat split; auto.
    + simpl. split; [reflexivity|]. split; [reflexivity|]. right.
      repeat split; eauto.
      intros (r' & tok & [= <-] & [H1 H2] & _).
      apply andb_false_iff in E as [E|E];
        [apply Z.leb_gt in E | apply Z.ltb_ge in E]; lia.
Qed.

(** X18. Only logging in and logging out write to [localStorage]:
    [Register], [ProofSettings], [ImageUpload] and [ProofStats] leave
    it as they found it whatever the server answers, so registering does
    not log the user in. *)
Theorem other_handlers_never_write_storage (ls : gmap string string) :
  (∀ srv st, storage (Register_handleSubmit srv st ls).2 = ls) ∧
  (∀ srv st, storage (ProofSettings_handleSubmit srv st ls).2 = ls) ∧
  (∀ (D : Type) (srv : call -> outcome D) st,
     storage (ImageUpload_handleSubmit srv st ls).2 = ls) ∧
  (∀ (D : Type) (srv : call -> outcome D) st,
     storage (ProofStats_fetchStats srv st ls).2 = ls) ∧
  (∀ srv st,
     PrivateRoute_renders (storage (Register_handleSubmit srv st ls).2)
     = PrivateRoute_renders ls).
Proof.
  assert (HR : ∀ srv st, storage (Register_handleSubmit srv st ls).2 = ls).
  { intros srv st. unfold Register_handleSubmit.
    destruct (axios srv _) as [e|[]]; reflexivity. }
  split; [exact HR|]. split; [|split; [|split]].
  - intros srv st. unfold ProofSettings_handleSubmit.
    destruct (axios srv _) as [e|[]]; reflexivity.
  - intros D srv st. unfold ImageUpload_handleSubmit.
    destruct (file st); [|reflexivity].
    destruct (axios srv _); reflexivity.
  - intros D srv st. unfold ProofStats_fetchStats.
    destruct (axios srv _); reflexivity.
  - intros srv st. rewrite HR. reflexivity.
Qed.

End StorageWrites.
